(** * MongoDB index migration tool: the index reconciliation engine

    A shallow embedding of [mongodb-index-migration-enhanced.js]:
    the equivalence comparator [areIndexesEquivalent], the planner loop of
    [compareIndexes], the inventory reader [getIndexes] and the applier
    [createIndex], together with the part of the JavaScript run time they
    rely on (property lookup, strict equality, truthiness, [Object.values],
    [String.prototype.includes], [JSON.stringify]). *)

From Stdlib Require Import ZArith Ascii String List Bool Permutation.
From Stdlib Require Import DecimalString DecimalZ DecimalPos.
From stdpp Require Import gmap strings list.

Local Open Scope Z_scope.
Local Open Scope string_scope.
Local Open Scope list_scope.

(** ** JavaScript values *)

Module JS.

(** Objects and arrays carry the identity of the heap cell they live in: the
    strict equality of two objects is the equality of their identities.  An
    object is the sequence of its own properties in enumeration order.
    Numbers are the integers (index directions, TTL seconds, text weights)
    and [NaN], the one value that is not strictly equal to itself. *)
Local Unset Elimination Schemes.
Inductive value : Type :=
| VUndefined
| VNull
| VBool (b : bool)
| VNum (n : Z)
| VStr (s : string)
| VArr (id : positive) (elems : list value)
| VObj (id : positive) (fields : list (string * value))
| VNaN.
Local Set Elimination Schemes.

Abbreviation props := (list (string * value)).

(** [o.f]: the first (only) own property named [f], [undefined] without one. *)
Fixpoint lookup_prop (f : string) (o : props) : option value :=
  match o with
  | [] => None
  | (k, v) :: rest => if String.eqb k f then Some v else lookup_prop f rest
  end.

Definition get (f : string) (o : props) : value :=
  match lookup_prop f o with
  | Some v => v
  | None => VUndefined
  end.

(** [delete o.f] *)
Definition delete_prop (f : string) (o : props) : props :=
  List.filter (fun kv => negb (String.eqb (fst kv) f)) o.

(** [a === b]; [NaN === NaN] is false. *)
Definition strict_eq (a b : value) : bool :=
  match a, b with
  | VUndefined, VUndefined => true
  | VNull, VNull => true
  | VBool x, VBool y => Bool.eqb x y
  | VNum x, VNum y => Z.eqb x y
  | VStr x, VStr y => String.eqb x y
  | VArr i _, VArr j _ => Pos.eqb i j
  | VObj i _, VObj j _ => Pos.eqb i j
  | _, _ => false
  end.

(** ToBoolean *)
Definition truthy (v : value) : bool :=
  match v with
  | VUndefined | VNull | VNaN => false
  | VBool b => b
  | VNum n => negb (Z.eqb n 0)
  | VStr s => negb (String.eqb s "")
  | VArr _ _ | VObj _ _ => true
  end.

(** [a || b] *)
Definition or_else (a b : value) : value := if truthy a then a else b.

(** The literal [{}]; its identity is never observed by the program. *)
Definition empty_object : value := VObj 1%positive [].

Fixpoint chars_of (s : string) : list value :=
  match s with
  | EmptyString => []
  | String c rest => VStr (String c EmptyString) :: chars_of rest
  end.

(** [Object.values(v)] for a [v] that is neither [undefined] nor [null]. *)
Definition Object_values (v : value) : list value :=
  match v with
  | VObj _ fields => List.map snd fields
  | VArr _ elems => elems
  | VStr s => chars_of s
  | _ => []
  end.

(** [xs.includes(x)] *)
Definition array_includes (xs : list value) (x : value) : bool :=
  existsb (strict_eq x) xs.

(** [s.includes(t)] on strings *)
Fixpoint string_includes (s t : string) : bool :=
  String.prefix t s ||
  match s with
  | EmptyString => false
  | String _ rest => string_includes rest t
  end.

End JS.
Import JS.

(** ** [JSON.stringify] *)

Module JSON.

Definition dquote : ascii := Ascii false true false false false true false false.
Definition backslash : ascii := Ascii false false true true true false true false.

Definition hex_digit (n : N) : ascii :=
  if (n <? 10)%N then ascii_of_N (48 + n) else ascii_of_N (87 + n).

(** One code unit of QuoteJSONString. *)
Definition escape_char (c : ascii) : list ascii :=
  let n := N_of_ascii c in
  if (n =? 8)%N then [backslash; "b"%char]
  else if (n =? 9)%N then [backslash; "t"%char]
  else if (n =? 10)%N then [backslash; "n"%char]
  else if (n =? 12)%N then [backslash; "f"%char]
  else if (n =? 13)%N then [backslash; "r"%char]
  else if (n =? 34)%N then [backslash; dquote]
  else if (n =? 92)%N then [backslash; backslash]
  else if (n <? 32)%N then
    [backslash; "u"%char; "0"%char; "0"%char; hex_digit (n / 16); hex_digit (n mod 16)]
  else [c].

Fixpoint escape_string (s : string) : list ascii :=
  match s with
  | EmptyString => []
  | String c rest => escape_char c ++ escape_string rest
  end.

Definition QuoteJSONString (s : string) : list ascii :=
  dquote :: escape_string s ++ [dquote].

(** Number::toString of an integer *)
Definition number_to_string (n : Z) : list ascii :=
  list_ascii_of_string (NilZero.string_of_int (Z.to_int n)).

Definition join_comma (parts : list (list ascii)) : list ascii :=
  match parts with
  | [] => []
  | p :: rest => p ++ List.concat (List.map (cons ","%char) rest)
  end.

Definition keep_some {A} (xs : list (option A)) : list A :=
  List.flat_map (fun x => match x with Some a => [a] | None => [] end) xs.

(** SerializeJSONProperty without replacer and without indentation: an
    [undefined] has no serialization, is left out of an object and is
    printed as [null] inside an array; a number that is not finite is
    printed as [null]. *)
Fixpoint serialize (v : value) : option (list ascii) :=
  match v with
  | VUndefined => None
  | VNull | VNaN => Some (list_ascii_of_string "null")
  | VBool true => Some (list_ascii_of_string "true")
  | VBool false => Some (list_ascii_of_string "false")
  | VNum n => Some (number_to_string n)
  | VStr s => Some (QuoteJSONString s)
  | VArr _ elems =>
      Some ("["%char ::
            join_comma (List.map (fun e =>
                          match serialize e with
                          | Some t => t
                          | None => list_ascii_of_string "null"
                          end) elems)
            ++ ["]"%char])
  | VObj _ fields =>
      Some ("{"%char ::
            join_comma (keep_some (List.map (fun kv =>
                          match serialize (snd kv) with
                          | Some t => Some (QuoteJSONString (fst kv) ++ ":"%char :: t)
                          | None => None
                          end) fields))
            ++ ["}"%char])
  end.

(** [JSON.stringify(v)]: a string, or [undefined] ([None]). *)
Definition stringify (v : value) : option string :=
  option_map string_of_list_ascii (serialize v).

(** [x === y] for two results of [JSON.stringify]. *)
Definition text_eq (x y : option string) : bool :=
  match x, y with
  | Some s, Some t => String.eqb s t
  | None, None => true
  | _, _ => false
  end.

(** *** What a JSON text denotes

    The tree a JSON text stands for: no [undefined], no object identity.
    [to_json] is the tree of a value and [render] prints a tree; [serialize]
    is shown below to be their composition, and [render] to be injective. *)
Local Unset Elimination Schemes.
Inductive json : Type :=
| JNull
| JBool (b : bool)
| JNum (n : Z)
| JStr (s : string)
| JArr (elems : list json)
| JObj (fields : list (string * json)).
Local Set Elimination Schemes.

Definition render_member (k : string) (t : list ascii) : list ascii :=
  QuoteJSONString k ++ ":"%char :: t.

Fixpoint render (j : json) : list ascii :=
  match j with
  | JNull => list_ascii_of_string "null"
  | JBool true => list_ascii_of_string "true"
  | JBool false => list_ascii_of_string "false"
  | JNum n => number_to_string n
  | JStr s => QuoteJSONString s
  | JArr elems => "["%char :: join_comma (List.map render elems) ++ ["]"%char]
  | JObj fields =>
      "{"%char ::
      join_comma (List.map (fun kj => render_member (fst kj) (render (snd kj))) fields)
      ++ ["}"%char]
  end.

Fixpoint to_json (v : value) : option json :=
  match v with
  | VUndefined => None
  | VNull | VNaN => Some JNull
  | VBool b => Some (JBool b)
  | VNum n => Some (JNum n)
  | VStr s => Some (JStr s)
  | VArr _ elems =>
      Some (JArr (List.map (fun e =>
                    match to_json e with Some j => j | None => JNull end) elems))
  | VObj _ fields =>
      Some (JObj (keep_some (List.map (fun kv =>
                    match to_json (snd kv) with
                    | Some j => Some (fst kv, j)
                    | None => None
                    end) fields)))
  end.

(** Reading back one escaped code unit. *)
Definition hex_value (c : ascii) : option N :=
  let n := N_of_ascii c in
  if ((48 <=? n) && (n <=? 57))%N then Some (n - 48)%N
  else if ((97 <=? n) && (n <=? 102))%N then Some (n - 87)%N
  else None.

Definition unescape (t : list ascii) : option (ascii * list ascii) :=
  match t with
  | [] => None
  | c :: rest =>
      if Ascii.eqb c dquote then None
      else if Ascii.eqb c backslash then
        match rest with
        | [] => None
        | e :: rest1 =>
            if Ascii.eqb e "b" then Some (ascii_of_N 8, rest1)
            else if Ascii.eqb e "t" then Some (ascii_of_N 9, rest1)
            else if Ascii.eqb e "n" then Some (ascii_of_N 10, rest1)
            else if Ascii.eqb e "f" then Some (ascii_of_N 12, rest1)
            else if Ascii.eqb e "r" then Some (ascii_of_N 13, rest1)
            else if Ascii.eqb e dquote then Some (dquote, rest1)
            else if Ascii.eqb e backslash then Some (backslash, rest1)
            else if Ascii.eqb e "u" then
              match rest1 with
              | _ :: _ :: h1 :: h2 :: rest2 =>
                  match hex_value h1, hex_value h2 with
                  | Some a, Some b => Some (ascii_of_N (16 * a + b), rest2)
                  | _, _ => None
                  end
              | _ => None
              end
            else None
        end
      else Some (c, rest)
  end.

(** The code units of a printed integer, and the first code unit of each
    kind of JSON text. *)
Definition is_num_char (c : ascii) : bool :=
  let n := N_of_ascii c in
  ((n =? 45) || ((48 <=? n) && (n <=? 57)))%N.

Definition delimited (r : list ascii) : Prop :=
  match r with
  | [] => True
  | c :: _ => is_num_char c = false
  end.

Inductive kind := KNull | KTrue | KFalse | KNum | KStr | KArr | KObj | KOther.

Definition char_kind (c : ascii) : kind :=
  if is_num_char c then KNum
  else if Ascii.eqb c "n" then KNull
  else if Ascii.eqb c "t" then KTrue
  else if Ascii.eqb c "f" then KFalse
  else if Ascii.eqb c dquote then KStr
  else if Ascii.eqb c "[" then KArr
  else if Ascii.eqb c "{" then KObj
  else KOther.

Definition head_kind (t : list ascii) : kind :=
  match t with
  | [] => KOther
  | c :: _ => char_kind c
  end.

Definition json_kind (j : json) : kind :=
  match j with
  | JNull => KNull
  | JBool true => KTrue
  | JBool false => KFalse
  | JNum _ => KNum
  | JStr _ => KStr
  | JArr _ => KArr
  | JObj _ => KObj
  end.

(** The text after the first element of an array or object, up to its
    closing bracket, followed by [r]. *)
Definition array_rest (elems : list json) (r : list ascii) : list ascii :=
  List.concat (List.map (cons ","%char) (List.map render elems)) ++ "]"%char :: r.

Definition object_rest (fields : list (string * json)) (r : list ascii) : list ascii :=
  List.concat (List.map (cons ","%char)
    (List.map (fun kj => render_member (fst kj) (render (snd kj))) fields))
  ++ "}"%char :: r.

(** [render] is injective at [j1], whatever delimited text follows. *)
Definition render_injective_at (j1 : json) : Prop :=
  forall j2 r1 r2, delimited r1 -> delimited r2 ->
    render j1 ++ r1 = render j2 ++ r2 -> j1 = j2 /\ r1 = r2.

(** Whether a tree has a member or element that is the string ["text"]. *)
Definition json_is_text (j : json) : bool :=
  match j with
  | JStr s => String.eqb "text" s
  | _ => false
  end.

Definition json_mentions_text (j : option json) : bool :=
  match j with
  | Some (JObj fields) => existsb (fun kj => json_is_text (snd kj)) fields
  | Some (JArr elems) => existsb json_is_text elems
  | _ => false
  end.

End JSON.

(** ** The equivalence comparator *)

(** The content of a value, the identities of its objects forgotten: what two
    copies of one document, read separately, have in common. *)
Fixpoint content (v : value) : value :=
  match v with
  | VArr _ elems => VArr 1 (List.map content elems)
  | VObj _ fields => VObj 1 (List.map (fun kv => (fst kv, content (snd kv))) fields)
  | _ => v
  end.

Definition is_nan (v : value) : bool :=
  match v with
  | VNaN => true
  | _ => false
  end.

(** A primitive value other than [NaN]: [undefined], [null], a boolean, an
    integer or a string. *)
Definition is_plain (v : value) : bool :=
  match v with
  | VUndefined | VNull | VBool _ | VNum _ | VStr _ => true
  | _ => false
  end.

(** A direction or kind in a key pattern: [1], [-1], ["text"], ... *)
Definition is_kind (v : value) : bool :=
  match v with
  | VNum _ | VStr _ => true
  | _ => false
  end.

(** [indexA.key && Object.values(indexA.key).includes('text')] as a condition *)
Definition is_text_index (index : props) : bool :=
  truthy (get "key" index)
  && array_includes (Object_values (get "key" index)) (VStr "text").

Definition areIndexesEquivalent (indexA indexB : props) : bool :=
  let keysA := JSON.stringify (get "key" indexA) in
  let keysB := JSON.stringify (get "key" indexB) in
  if negb (JSON.text_eq keysA keysB) then false
  else if negb (strict_eq (get "unique" indexA) (get "unique" indexB)) then false
  else if negb (strict_eq (get "sparse" indexA) (get "sparse" indexB)) then false
  else if negb (strict_eq (get "expireAfterSeconds" indexA)
                          (get "expireAfterSeconds" indexB)) then false
  else if is_text_index indexA
          && negb (JSON.text_eq
                     (JSON.stringify (or_else (get "weights" indexA) empty_object))
                     (JSON.stringify (or_else (get "weights" indexB) empty_object)))
       then false
  else if negb (JSON.text_eq
                  (JSON.stringify
                     (or_else (get "partialFilterExpression" indexA) empty_object))
                  (JSON.stringify
                     (or_else (get "partialFilterExpression" indexB) empty_object)))
       then false
  else true.


(** ** Effects: the console, the heap of descriptor objects, the driver *)

(** A thrown [Error]: its [code] (a number for server errors) and [message]. *)
Record error := { code : value; message : string }.

Inductive level := Info | Error | Success | Warning.

(** The lines the program logs, by template. *)
Inductive report :=
| RetrievedIndexes (count : nat) (collectionName : string)
| FailedToGetIndexes (collectionName : string) (cause : string)
| SkippingIdIndex (collectionName : string)
| CreatedIndex (label : value) (collectionName : string)
| IndexAlreadyExists (label : value) (collectionName : string)
| FailedToCreateIndex (label : value) (collectionName : string) (cause : string)
| ComparingIndexes (collectionName : string)
| CollectionNotInTarget (collectionName : string).

(** One call [collection.createIndex(keys, options)] received by the driver. *)
Record request := { on_collection : string; keys_arg : value; options_arg : props }.

(** A database handle of the driver.  [db.collection(name)] may throw;
    [collection.indexes()] resolves to descriptors or rejects; the reply to
    [collection.createIndex] may depend on the calls received before. *)
Record database := {
  db_collection : string -> option error;
  db_indexes : string -> error + list props;
  db_createIndex : list request -> request -> option error
}.

(** Descriptor objects live in [heap], so that two references to one object
    see each other's updates.  A reference outside the heap stands for an
    argument that is [undefined]: reading a property of it throws. *)
Record world := {
  heap : gmap positive props;
  requests : list request;
  console : list (level * report)
}.

Inductive outcome (A : Type) :=
| Returned (a : A)
| Thrown (e : error).
Arguments Returned {A} a.
Arguments Thrown {A} e.

Definition M (A : Type) : Type := world -> world * outcome A.

Definition ret {A} (a : A) : M A := fun w => (w, Returned a).

Definition throw {A} (e : error) : M A := fun w => (w, Thrown e).

Definition bind {A B} (c : M A) (k : A -> M B) : M B :=
  fun w =>
    match c w with
    | (w1, Returned a) => k a w1
    | (w1, Thrown e) => (w1, Thrown e)
    end.

Definition try_catch {A} (body : M A) (handler : error -> M A) : M A :=
  fun w =>
    match body w with
    | (w1, Returned a) => (w1, Returned a)
    | (w1, Thrown e) => handler e w1
    end.

Notation "x <- c ;; k" := (bind c (fun x => k))
  (at level 100, c at next level, right associativity).
Notation "c ;;; k" := (bind c (fun _ => k))
  (at level 100, right associativity).

Definition logger (l : level) (r : report) : M unit :=
  fun w => ({| heap := heap w; requests := requests w;
               console := console w ++ [(l, r)] |}, Returned tt).

Definition with_console (w : world) (lines : list (level * report)) : world :=
  {| heap := heap w; requests := requests w; console := console w ++ lines |}.

Definition type_error : error :=
  {| code := VUndefined; message := "Cannot read properties of undefined" |}.

(** [ref.f] *)
Definition read (ref : positive) (f : string) : M value :=
  fun w =>
    match heap w !! ref with
    | Some o => (w, Returned (get f o))
    | None => (w, Thrown type_error)
    end.

(** [{ ...ref }]: a new object with the own properties of [ref]. *)
Definition spread (ref : positive) : M positive :=
  fun w =>
    let o := default [] (heap w !! ref) in
    let fresh_ref := fresh (dom (heap w)) in
    ({| heap := <[fresh_ref := o]> (heap w); requests := requests w;
        console := console w |}, Returned fresh_ref).

(** [delete ref.f] *)
Definition delete_field (ref : positive) (f : string) : M unit :=
  fun w =>
    ({| heap := alter (delete_prop f) ref (heap w); requests := requests w;
        console := console w |}, Returned tt).

(** [db.collection(name)] *)
Definition collection (db : database) (name : string) : M unit :=
  match db_collection db name with
  | Some e => throw e
  | None => ret tt
  end.

(** [await collection.createIndex(keys, options)] *)
Definition driver_createIndex (db : database) (name : string) (keys : value)
    (options : positive) : M unit :=
  fun w =>
    let req := {| on_collection := name; keys_arg := keys;
                  options_arg := default [] (heap w !! options) |} in
    let w1 := {| heap := heap w; requests := requests w ++ [req];
                 console := console w |} in
    match db_createIndex db (requests w) req with
    | Some e => (w1, Thrown e)
    | None => (w1, Returned tt)
    end.

(** [a || JSON.stringify(b)] inside a log line *)
Definition text_value (t : option string) : value :=
  match t with
  | Some s => VStr s
  | None => VUndefined
  end.

Definition index_label (indexSpec : positive) : M value :=
  name <- read indexSpec "name" ;;
  if truthy name then ret name
  else
    key <- read indexSpec "key" ;;
    ret (text_value (JSON.stringify key)).

(** ** The inventory reader *)

Definition getIndexes (db : database) (collectionName : string) : M (list props) :=
  try_catch
    (collection db collectionName ;;;
     match db_indexes db collectionName with
     | inl e => throw e
     | inr indexes =>
         logger Info (RetrievedIndexes (length indexes) collectionName) ;;;
         ret indexes
     end)
    (fun error =>
       logger Error (FailedToGetIndexes collectionName (message error)) ;;;
       ret []).

(** ** The planner *)

(** An entry of [missingIndexes]. *)
Record planEntry := { collectionMissing : bool; indexes : list props }.

(** [index.name === '_id_'] *)
Definition is_id_index (index : props) : bool :=
  strict_eq (get "name" index) (VStr "_id_").

(** [names.includes(name)] *)
Definition list_includes (names : list string) (name : string) : bool :=
  existsb (String.eqb name) names.

(** The inner loop of [compareIndexes] over [sourceIndexes], threading
    [missing] and [totalMissingIndexes]. *)
Fixpoint findMissing (sourceIndexes targetIndexes missing : list props)
    (totalMissingIndexes : nat) : list props * nat :=
  match sourceIndexes with
  | [] => (missing, totalMissingIndexes)
  | sourceIndex :: rest =>
      if is_id_index sourceIndex then
        findMissing rest targetIndexes missing totalMissingIndexes
      else
        let hasEquivalent :=
          existsb (fun targetIndex => areIndexesEquivalent sourceIndex targetIndex)
                  targetIndexes in
        if negb hasEquivalent then
          findMissing rest targetIndexes (missing ++ [sourceIndex])
                      (S totalMissingIndexes)
        else findMissing rest targetIndexes missing totalMissingIndexes
  end.

(** [object[name] = entry] on an object created by the literal [{}], seen as
    the map of its own properties.  The name [__proto__] reaches the setter
    inherited from [Object.prototype]: the assignment makes [entry] the
    prototype of the object and adds no property.  The prototype is not kept:
    the program reads the plan through [Object.entries], its own properties. *)
Definition assign (name : string) (entry : planEntry)
    (object : gmap string planEntry) : gmap string planEntry :=
  if String.eqb name "__proto__" then object else <[name := entry]> object.

(** The loop of [compareIndexes] over [sourceCollections], threading
    [missingIndexes] and [totalMissingIndexes]. *)
Fixpoint compareCollections (sourceDb targetDb : database)
    (targetCollections sourceCollections : list string)
    (missingIndexes : gmap string planEntry) (totalMissingIndexes : nat)
    : M (gmap string planEntry * nat) :=
  match sourceCollections with
  | [] => ret (missingIndexes, totalMissingIndexes)
  | collectionName :: rest =>
      logger Info (ComparingIndexes collectionName) ;;;
      sourceIndexes <- getIndexes sourceDb collectionName ;;
      if negb (list_includes targetCollections collectionName) then
        logger Warning (CollectionNotInTarget collectionName) ;;;
        let listed := List.filter (fun index => negb (is_id_index index))
                                  sourceIndexes in
        compareCollections sourceDb targetDb targetCollections rest
          (assign collectionName
             {| collectionMissing := true; indexes := listed |} missingIndexes)
          (totalMissingIndexes + length listed)
      else
        targetIndexes <- getIndexes targetDb collectionName ;;
        let found := findMissing sourceIndexes targetIndexes [] totalMissingIndexes in
        if (0 <? length (fst found))%nat then
          compareCollections sourceDb targetDb targetCollections rest
            (assign collectionName
               {| collectionMissing := false; indexes := fst found |}
               missingIndexes)
            (snd found)
        else
          compareCollections sourceDb targetDb targetCollections rest
            missingIndexes (snd found)
  end.

(** The error, if any, met by [getIndexes] when it reads a collection. *)
Definition read_failure (db : database) (collectionName : string) : option error :=
  match db_collection db collectionName with
  | Some e => Some e
  | None =>
      match db_indexes db collectionName with
      | inl e => Some e
      | inr _ => None
      end
  end.

(** What [getIndexes] logs for a collection. *)
Definition read_report (db : database) (collectionName : string) : level * report :=
  match db_collection db collectionName with
  | Some e => (Error, FailedToGetIndexes collectionName (message e))
  | None =>
      match db_indexes db collectionName with
      | inl e => (Error, FailedToGetIndexes collectionName (message e))
      | inr found => (Info, RetrievedIndexes (length found) collectionName)
      end
  end.

(** What [getIndexes] yields for a collection: the inventory of a database. *)
Definition inventory (db : database) (collectionName : string) : list props :=
  match db_collection db collectionName with
  | Some _ => []
  | None =>
      match db_indexes db collectionName with
      | inl _ => []
      | inr found => found
      end
  end.

(** *** The plan of the specification

    For a source collection: absent from the target names, the entry is
    flagged and lists every source descriptor not named [_id_]; present, it
    lists the source descriptors not named [_id_] without an equivalent among
    the target descriptors as [target_view] shows them, and there is no entry
    when that list is empty.  The specification removes the descriptors named
    [_id_] from every sequence, the target's too: [reference_plan]. *)
Definition without_id (descriptors : list props) : list props :=
  List.filter (fun index => negb (is_id_index index)) descriptors.

Definition entry_for (target_view : list props -> list props)
    (sourceIndexes : list props) (onTarget : bool) (targetIndexes : list props)
    : option planEntry :=
  if negb onTarget then
    Some {| collectionMissing := true; indexes := without_id sourceIndexes |}
  else
    match List.filter
            (fun s => negb (existsb (areIndexesEquivalent s)
                              (target_view targetIndexes)))
            (without_id sourceIndexes) with
    | [] => None
    | missing => Some {| collectionMissing := false; indexes := missing |}
    end.

Definition plan_of (target_view : list props -> list props)
    (sourceCollections : list string) (sourceIndexes : string -> list props)
    (targetCollections : list string) (targetIndexes : string -> list props)
    (collectionName : string) : option planEntry :=
  if list_includes sourceCollections collectionName then
    entry_for target_view (sourceIndexes collectionName)
      (list_includes targetCollections collectionName)
      (targetIndexes collectionName)
  else None.

Definition reference_plan := plan_of without_id.

(** The same with the target descriptors taken as they are read. *)
Definition plan_with_target_as_read := plan_of (fun descriptors => descriptors).

(** The collection names under which an entry can be recorded. *)
Definition recordable (names : list string) : list string :=
  List.filter (fun name => negb (String.eqb name "__proto__")) names.

(** The target has every source collection, and for every source descriptor
    not named [_id_] an equivalent descriptor in the same collection. *)
Definition in_sync (sourceCollections : list string)
    (sourceIndexes : string -> list props) (targetCollections : list string)
    (targetIndexes : string -> list props) : Prop :=
  forall collectionName, In collectionName sourceCollections ->
    In collectionName targetCollections /\
    forall s, In s (sourceIndexes collectionName) -> is_id_index s = false ->
      exists t, In t (targetIndexes collectionName) /\
                areIndexesEquivalent s t = true.

(** ** The applier *)

(** [error.code === 85 || error.message.includes('already exists')] *)
Definition is_duplicate_index (e : error) : bool :=
  strict_eq (code e) (VNum 85) || string_includes (message e) "already exists".

Definition createIndex (db : database) (collectionName : string)
    (indexSpec : positive) : M unit :=
  try_catch
    (collection db collectionName ;;;
     name <- read indexSpec "name" ;;
     if strict_eq name (VStr "_id_") then
       logger Info (SkippingIdIndex collectionName)
     else
       keys <- read indexSpec "key" ;;
       options <- spread indexSpec ;;
       delete_field options "key" ;;;
       delete_field options "v" ;;;
       delete_field options "ns" ;;;
       driver_createIndex db collectionName keys options ;;;
       name <- read indexSpec "name" ;;
       logger Success
         (CreatedIndex (or_else name (text_value (JSON.stringify keys)))
            collectionName))
    (fun error =>
       if is_duplicate_index error then
         label <- index_label indexSpec ;;
         logger Warning (IndexAlreadyExists label collectionName)
       else
         label <- index_label indexSpec ;;
         logger Error (FailedToCreateIndex label collectionName (message error))).

(** The loop of [migrateCollectionIndexes]:
    [for (const indexSpec of indexes) await createIndex(targetDb, name, indexSpec)] *)
Fixpoint createEachIndex (db : database) (collectionName : string)
    (indexes : list positive) : M unit :=
  match indexes with
  | [] => ret tt
  | indexSpec :: rest =>
      createIndex db collectionName indexSpec ;;;
      createEachIndex db collectionName rest
  end.

(** The options the driver receives for a descriptor. *)
Definition forwarded_options (indexSpec : props) : props :=
  delete_prop "ns" (delete_prop "v" (delete_prop "key" indexSpec)).

(** What [createIndex] logs for a descriptor: the label of its lines, and
    the line for an error caught by its handler. *)
Definition label_of (indexSpec : props) : value :=
  or_else (get "name" indexSpec) (text_value (JSON.stringify (get "key" indexSpec))).

Definition failure_report (e : error) (indexSpec : props) (collectionName : string)
    : level * report :=
  if is_duplicate_index e then
    (Warning, IndexAlreadyExists (label_of indexSpec) collectionName)
  else
    (Error, FailedToCreateIndex (label_of indexSpec) collectionName (message e)).

Definition request_for (collectionName : string) (indexSpec : props) : request :=
  {| on_collection := collectionName; keys_arg := get "key" indexSpec;
     options_arg := forwarded_options indexSpec |}.

(** ** Sample descriptors *)

(** Test strings are written with ['] where the JSON text has a double quote. *)
Definition json_text (s : string) : string :=
  string_of_list_ascii
    (List.map (fun c => if Ascii.eqb c "'"%char then JSON.dquote else c)
       (list_ascii_of_string s)).

Definition key_a : value := VObj 11 [("a", VNum 1)].
Definition key_ab : value := VObj 12 [("a", VNum 1); ("b", VNum 1)].
Definition key_ba : value := VObj 13 [("b", VNum 1); ("a", VNum 1)].

Definition index_a : props :=
  [("v", VNum 2); ("key", key_a); ("name", VStr "a_1")].
Definition index_a_renamed : props :=
  [("v", VNum 2); ("key", key_a); ("name", VStr "by_a"); ("background", VBool true)].
Definition index_a_not_unique : props :=
  [("v", VNum 2); ("key", key_a); ("name", VStr "a_1"); ("unique", VBool false)].
Definition index_a_ttl0 : props :=
  [("v", VNum 2); ("key", key_a); ("name", VStr "a_1"); ("expireAfterSeconds", VNum 0)].
(** [index_a] as a second read returns it, under another name: the key
    pattern is another object. *)
Definition index_a_read_again : props :=
  [("v", VNum 2); ("key", VObj 14 [("a", VNum 1)]); ("name", VStr "by_a");
   ("background", VBool true)].
(** A TTL that is [NaN], and a [unique] option that is an object. *)
Definition index_a_ttl_nan : props :=
  [("v", VNum 2); ("key", key_a); ("name", VStr "a_1"); ("expireAfterSeconds", VNaN)].
Definition index_a_unique_object : props :=
  [("v", VNum 2); ("key", key_a); ("name", VStr "a_1"); ("unique", VObj 15 [])].
Definition index_a_unique_object_read_again : props :=
  [("v", VNum 2); ("key", VObj 16 [("a", VNum 1)]); ("name", VStr "a_1");
   ("unique", VObj 17 [])].
Definition index_ab : props := [("v", VNum 2); ("key", key_ab); ("name", VStr "a_1_b_1")].
Definition index_ba : props := [("v", VNum 2); ("key", key_ba); ("name", VStr "b_1_a_1")].


(** ** Sample databases *)

Definition index_id : props :=
  [("v", VNum 2); ("key", VObj 31 [("_id", VNum 1)]); ("name", VStr "_id_")].
Definition index_email : props :=
  [("v", VNum 2); ("key", VObj 32 [("email", VNum 1)]); ("name", VStr "email_1");
   ("unique", VBool true)].
Definition index_by_id : props :=
  [("v", VNum 2); ("key", VObj 33 [("_id", VNum 1)]); ("name", VStr "by_id")].

Definition no_such_collection : error :=
  {| code := VNum 26; message := "ns does not exist" |}.
Definition index_exists : error :=
  {| code := VNum 85; message := "Index already exists with a different name" |}.
Definition not_authorized : error :=
  {| code := VNum 13; message := "not authorized" |}.

(** A source with [users] and [orders], and a target with [users] only, that
    accepts every index. *)
Definition sample_source : database :=
  {| db_collection := fun _ => None;
     db_indexes := fun name =>
       if String.eqb name "users" then inr [index_id; index_email]
       else if String.eqb name "orders" then inr [index_id]
       else inl no_such_collection;
     db_createIndex := fun _ _ => None |}.

Definition sample_target : database :=
  {| db_collection := fun _ => None;
     db_indexes := fun name =>
       if String.eqb name "users" then inr [index_id]
       else inl no_such_collection;
     db_createIndex := fun _ _ => None |}.

(** A source whose collections have a second index on [_id]. *)
Definition source_indexed_by_id : database :=
  {| db_collection := fun _ => None;
     db_indexes := fun _ => inr [index_id; index_by_id];
     db_createIndex := fun _ _ => None |}.

(** A target that has every index already, and one that refuses them. *)
Definition target_up_to_date : database :=
  {| db_collection := fun _ => None;
     db_indexes := fun _ => inr [index_id; index_email];
     db_createIndex := fun _ _ => Some index_exists |}.

Definition target_read_only : database :=
  {| db_collection := fun _ => None;
     db_indexes := fun _ => inl not_authorized;
     db_createIndex := fun _ _ => Some not_authorized |}.

(** A world with the [email_1] descriptor at 5 and the [_id_] one at 6. *)
Definition sample_world : world :=
  {| heap := {[ 5%positive := index_email; 6%positive := index_id ]};
     requests := []; console := [] |}.

(** ** More of the comparator: what it reads *)

(** The fields [areIndexesEquivalent] reads. *)
Definition identity_fields : list string :=
  ["key"; "unique"; "sparse"; "expireAfterSeconds"; "weights";
   "partialFilterExpression"].

(** A [partialFilterExpression] that [x || {}] prints as [{}]: a falsy value
    or an object without fields. *)
Definition no_filter (v : value) : bool :=
  negb (truthy v) ||
  match v with
  | VObj _ [] => true
  | _ => false
  end.

Definition key_title_text : value := VObj 41 [("title", VStr "text")].
Definition index_a_collated : props :=
  [("v", VNum 2); ("key", key_a); ("name", VStr "a_fr");
   ("collation", VObj 42 [("locale", VStr "fr")]); ("hidden", VBool true)].
Definition index_a_weighted : props :=
  [("v", VNum 2); ("key", key_a); ("name", VStr "a_1");
   ("weights", VObj 43 [("a", VNum 7)])].
Definition index_a_null_filter : props :=
  [("v", VNum 2); ("key", key_a); ("name", VStr "a_1");
   ("partialFilterExpression", VNull)].
Definition index_a_empty_filter : props :=
  [("v", VNum 2); ("key", key_a); ("name", VStr "a_1");
   ("partialFilterExpression", VObj 44 [])].
Definition index_title_1 : props :=
  [("v", VNum 2); ("key", key_title_text); ("name", VStr "title_text");
   ("weights", VObj 45 [("title", VNum 1)])].
Definition index_title_5 : props :=
  [("v", VNum 2); ("key", key_title_text); ("name", VStr "title_text");
   ("weights", VObj 46 [("title", VNum 5)])].

(** ** More of the planner: the lines and the count of a run *)

(** The lines one turn of the loop of [compareIndexes] logs. *)
Definition compare_lines (sourceDb targetDb : database)
    (targetCollections : list string) (collectionName : string)
    : list (level * report) :=
  [(Info, ComparingIndexes collectionName); read_report sourceDb collectionName]
  ++ (if list_includes targetCollections collectionName
      then [read_report targetDb collectionName]
      else [(Warning, CollectionNotInTarget collectionName)]).

(** The number of descriptors an entry lists. *)
Definition entry_count (entry : option planEntry) : nat :=
  match entry with
  | Some e => length (indexes e)
  | None => 0
  end.

(** What one turn decides for a collection. *)
Definition turn_entry (sourceDb targetDb : database)
    (targetCollections : list string) (collectionName : string)
    : option planEntry :=
  entry_for (fun descriptors => descriptors) (inventory sourceDb collectionName)
    (list_includes targetCollections collectionName)
    (inventory targetDb collectionName).

(** A target where [users] is listed but its indexes cannot be read, and a
    source that cannot be read at all. *)
Definition sample_target_unreadable : database :=
  {| db_collection := fun _ => None;
     db_indexes := fun _ => inl {| code := VNum 13; message := "not authorized" |};
     db_createIndex := fun _ _ => None |}.


(** ** The commands: collections, migration, custom indexes, comparison *)

(** What [db.listCollections().toArray()] resolves to, one per collection. *)
Record collectionInfo := { info_name : string; info_type : string }.

(** A database with its catalogue.  The replies about collections may depend
    on what the driver has received so far: the [createIndex] requests and
    the [createCollection] calls. *)
Record server := {
  handle : database;
  (** [db.listCollections().toArray()] *)
  server_listCollections : error + list collectionInfo;
  (** [db.listCollections({ name }).hasNext()] *)
  server_hasCollection : list request -> list string -> string -> error + bool;
  (** [db.createCollection(name)] *)
  server_createCollection : list request -> list string -> string -> option error
}.

(** The other lines of the console, by template; a line written with
    [console.log] is given the level [Info]. *)
Inductive note :=
| FailedToGetCollections (cause : string)
| MigratingIndexes (collectionName : string)
| CreatedCollection (collectionName : string)
| CompletedMigration (collectionName : string)
| MigrationError (collectionName : string) (cause : string)
| FoundCollectionsToProcess (count : nat)
| MigrationCompleted
| NoCustomIndexes
| CreatingCustomIndexes (count : nat)
| CustomIndexesCompleted
| CustomIndexesError (cause : string)
| FoundSourceCollections (count : nat)
| MissingIndexesHeader
| MissingIndexesReport (count : nat)
| AllIndexesExist
| ErrorComparingIndexes (cause : string).

(** The state of a command: the world of the reader and the applier, the
    [createCollection] calls made, oldest first, and the other lines logged,
    each with the number of lines of [console] that precede it. *)
Record session := {
  under : world;
  created : list string;
  notes : list (nat * (level * note))
}.

Definition S (A : Type) : Type := session -> session * outcome A.

Definition retS {A} (a : A) : S A := fun s => (s, Returned a).

Definition throwS {A} (e : error) : S A := fun s => (s, Thrown e).

Definition bindS {A B} (c : S A) (k : A -> S B) : S B :=
  fun s =>
    match c s with
    | (s1, Returned a) => k a s1
    | (s1, Thrown e) => (s1, Thrown e)
    end.

Definition try_catchS {A} (body : S A) (handler : error -> S A) : S A :=
  fun s =>
    match body s with
    | (s1, Returned a) => (s1, Returned a)
    | (s1, Thrown e) => handler e s1
    end.

Notation "x <~ c ;; k" := (bindS c (fun x => k))
  (at level 100, c at next level, right associativity).
Notation "c ~;; k" := (bindS c (fun _ => k))
  (at level 100, right associativity).

(** A call of the reader, the applier or the planner loop inside a command. *)
Definition lift {A} (c : M A) : S A :=
  fun s =>
    match c (under s) with
    | (w, o) => ({| under := w; created := created s; notes := notes s |}, o)
    end.

Definition noteS (l : level) (n : note) : S unit :=
  fun s =>
    ({| under := under s; created := created s;
        notes := notes s ++ [(length (console (under s)), (l, n))] |},
     Returned tt).

(** The session once a line is logged. *)
Definition noted (l : level) (n : note) (s : session) : session :=
  {| under := under s; created := created s;
     notes := notes s ++ [(length (console (under s)), (l, n))] |}.

(** [await db.listCollections({ name }).hasNext()] *)
Definition hasCollection (db : server) (name : string) : S bool :=
  fun s =>
    match server_hasCollection db (requests (under s)) (created s) name with
    | inl e => (s, Thrown e)
    | inr found => (s, Returned found)
    end.

(** [await db.createCollection(name)] *)
Definition createCollection (db : server) (name : string) : S unit :=
  fun s =>
    let s1 := {| under := under s; created := created s ++ [name];
                 notes := notes s |} in
    match server_createCollection db (requests (under s)) (created s) name with
    | Some e => (s1, Thrown e)
    | None => (s1, Returned tt)
    end.

(** The objects of an array the driver has built, in the heap. *)
Definition alloc (o : props) : M positive :=
  fun w =>
    let ref := fresh (dom (heap w)) in
    ({| heap := <[ref := o]> (heap w); requests := requests w;
        console := console w |}, Returned ref).

Fixpoint allocate (objects : list props) : M (list positive) :=
  match objects with
  | [] => ret []
  | o :: rest =>
      ref <- alloc o ;;
      refs <- allocate rest ;;
      ret (ref :: refs)
  end.

(** [specifiedCollections && specifiedCollections.length > 0], the argument
    being an array or [undefined]. *)
Definition specified (specifiedCollections : option (list string)) : bool :=
  match specifiedCollections with
  | Some names => (0 <? length names)%nat
  | None => false
  end.

Definition getCollections (db : server)
    (specifiedCollections : option (list string)) : S (list string) :=
  try_catchS
    (if specified specifiedCollections then
       retS (default [] specifiedCollections)
     else
       match server_listCollections db with
       | inl e => throwS e
       | inr collections => retS (List.map info_name collections)
       end)
    (fun error =>
       noteS Error (FailedToGetCollections (message error)) ~;;
       throwS error).

(** The block "create collection if it doesn't exist" of
    [migrateCollectionIndexes] and [createCustomIndexes]. *)
Definition createCollectionIfMissing (targetDb : server) (collectionName : string)
    : S unit :=
  found <~ hasCollection targetDb collectionName ;;
  if negb found then
    createCollection targetDb collectionName ~;;
    noteS Info (CreatedCollection collectionName)
  else retS tt.

Definition migrateCollectionIndexes (sourceDb targetDb : server)
    (collectionName : string) : S unit :=
  try_catchS
    (noteS Info (MigratingIndexes collectionName) ~;;
     indexes <~ lift (getIndexes (handle sourceDb) collectionName) ;;
     refs <~ lift (allocate indexes) ;;
     createCollectionIfMissing targetDb collectionName ~;;
     lift (createEachIndex (handle targetDb) collectionName refs) ~;;
     noteS Success (CompletedMigration collectionName))
    (fun error =>
       noteS Error (MigrationError collectionName (message error))).

(** The loop of the [migrate] command over the collections. *)
Fixpoint migrateEachCollection (sourceDb targetDb : server)
    (collections : list string) : S unit :=
  match collections with
  | [] => retS tt
  | collectionName :: rest =>
      migrateCollectionIndexes sourceDb targetDb collectionName ~;;
      migrateEachCollection sourceDb targetDb rest
  end.

(** The [migrate] case of [main], [configCollections] being
    [config.collections]. *)
Definition migrateCommand (sourceDb targetDb : server)
    (configCollections : option (list string)) : S unit :=
  collections <~ getCollections sourceDb configCollections ;;
  noteS Info (FoundCollectionsToProcess (length collections)) ~;;
  migrateEachCollection sourceDb targetDb collections ~;;
  noteS Success MigrationCompleted.

(** The loop of [createCustomIndexes] over [config.customIndexes], an entry
    being its [collectionName] and a reference to its [index]. *)
Fixpoint createEachCustomIndex (targetDb : server)
    (customIndexes : list (string * positive)) : S unit :=
  match customIndexes with
  | [] => retS tt
  | (collectionName, index) :: rest =>
      createCollectionIfMissing targetDb collectionName ~;;
      lift (createIndex (handle targetDb) collectionName index) ~;;
      createEachCustomIndex targetDb rest
  end.

(** [createCustomIndexes], [customIndexes] being [config.customIndexes]: an
    array or [undefined]. *)
Definition createCustomIndexes (targetDb : server)
    (customIndexes : option (list (string * positive))) : S unit :=
  try_catchS
    (match customIndexes with
     | None | Some [] => noteS Info NoCustomIndexes
     | Some entries =>
         noteS Info (CreatingCustomIndexes (length entries)) ~;;
         createEachCustomIndex targetDb entries ~;;
         noteS Success CustomIndexesCompleted
     end)
    (fun error => noteS Error (CustomIndexesError (message error))).

(** [compareIndexes], [configCollections] being [config.collections] and
    [afterwards] the rest of the function once some index is missing: the
    listing of the plan, the question and the write of [config.json]. *)
Definition compareIndexes (sourceDb targetDb : server)
    (configCollections : option (list string))
    (afterwards : gmap string planEntry -> nat -> S unit)
    : S (gmap string planEntry * nat) :=
  try_catchS
    (sourceCollections <~ getCollections sourceDb configCollections ;;
     noteS Info (FoundSourceCollections (length sourceCollections)) ~;;
     targetCollections <~ getCollections targetDb (Some []) ;;
     found <~ lift (compareCollections (handle sourceDb) (handle targetDb)
                      targetCollections sourceCollections ∅ 0%nat) ;;
     noteS Info MissingIndexesHeader ~;;
     noteS Info (MissingIndexesReport (snd found)) ~;;
     if (snd found =? 0)%nat then
       noteS Info AllIndexesExist ~;;
       retS (fst found, 0%nat)
     else
       afterwards (fst found) (snd found) ~;;
       retS found)
    (fun error =>
       noteS Error (ErrorComparingIndexes (message error)) ~;;
       retS (∅, 0%nat)).

(** The "build index specification" block of [startInteractiveMode], from
    the answers as parsed: [ttl] is [parseInt(ttlStr)], [None] for [NaN]. *)
Definition buildIndexSpec (fields : value) (indexName : string)
    (unique sparse background : bool) (ttl : option Z) : props :=
  [("key", fields); ("background", VBool background)]
  ++ (if truthy (VStr indexName) then [("name", VStr indexName)] else [])
  ++ (if unique then [("unique", VBool true)] else [])
  ++ (if sparse then [("sparse", VBool true)] else [])
  ++ (match ttl with
      | Some seconds =>
          if (0 <? seconds)%Z then [("expireAfterSeconds", VNum seconds)] else []
      | None => []
      end).

(** The error, if any, met by the block that creates a missing collection,
    after the given requests and [createCollection] calls. *)
Definition ensure_failure (targetDb : server) (received : list request)
    (calls : list string) (collectionName : string) : option error :=
  match server_hasCollection targetDb received calls collectionName with
  | inl e => Some e
  | inr true => None
  | inr false => server_createCollection targetDb received calls collectionName
  end.

(** The [createCollection] calls the block makes. *)
Definition ensure_calls (targetDb : server) (received : list request)
    (calls : list string) (collectionName : string) : list string :=
  match server_hasCollection targetDb received calls collectionName with
  | inr false => [collectionName]
  | _ => []
  end.

(** What [getCollections] resolves to, or the error it throws. *)
Definition collections_of (db : server)
    (specifiedCollections : option (list string)) : error + list string :=
  if specified specifiedCollections then inr (default [] specifiedCollections)
  else
    match server_listCollections db with
    | inl e => inl e
    | inr collections => inr (List.map info_name collections)
    end.

(** Sample servers: the sample source and target with their catalogues, the
    target lacking [orders]; a target whose catalogue cannot be read. *)
Definition sample_source_server : server :=
  {| handle := sample_source;
     server_listCollections :=
       inr [{| info_name := "users"; info_type := "collection" |};
            {| info_name := "orders"; info_type := "collection" |}];
     server_hasCollection := fun _ _ _ => inr true;
     server_createCollection := fun _ _ _ => None |}.

Definition sample_target_server : server :=
  {| handle := sample_target;
     server_listCollections :=
       inr [{| info_name := "users"; info_type := "collection" |}];
     server_hasCollection := fun _ calls name =>
       inr (String.eqb name "users" || list_includes calls name);
     server_createCollection := fun _ _ _ => None |}.

Definition unreachable_server : server :=
  {| handle := target_read_only;
     server_listCollections := inl not_authorized;
     server_hasCollection := fun _ _ _ => inl not_authorized;
     server_createCollection := fun _ _ _ => Some not_authorized |}.

Definition sample_session : session :=
  {| under := sample_world; created := []; notes := [] |}.

(** The creates the driver receives for the descriptors of a collection:
    none when [db.collection] throws. *)
Definition attempted (db : database) (collectionName : string)
    (descriptors : list props) : list request :=
  match db_collection db collectionName with
  | Some _ => []
  | None => List.map (request_for collectionName) (without_id descriptors)
  end.

(** A listing step that fails, as when [config.json] cannot be written. *)
Definition failing_afterwards (plan : gmap string planEntry) (count : nat)
    : S unit :=
  throwS {| code := VStr "EACCES"; message := "permission denied" |}.

(** * Properties *)

Example stringify_key :
  JSON.stringify (VObj 7 [("a", VNum 1); ("b", VNum (-1)); ("c", VStr "text")])
  = Some (json_text "{'a':1,'b':-1,'c':'text'}").
Proof. vm_compute. reflexivity. Qed.

Example includes_substring :
  string_includes "Index already exists with a different name" "already exists" = true.
Proof. reflexivity. Qed.

Example includes_absent : string_includes "not authorized" "already exists" = false.
Proof. reflexivity. Qed.

Example duplicate_by_message :
  is_duplicate_index {| code := VUndefined; message := "index already exists" |} = true.
Proof. reflexivity. Qed.

Example duplicate_by_code : is_duplicate_index index_exists = true.
Proof. reflexivity. Qed.

Example stringify_nan :
  JSON.stringify (VArr 7 [VNaN; VNum 1]) = Some "[null,1]"
  /\ strict_eq VNaN VNaN = false.
Proof. split; reflexivity. Qed.

Example stringify_undefined_members :
  JSON.stringify (VObj 7 [("a", VUndefined); ("b", VArr 8 [VUndefined; VBool true])])
  = Some (json_text "{'b':[null,true]}").
Proof. vm_compute. reflexivity. Qed.

(** ** Induction over nested values *)

Lemma value_ind (P : value -> Prop)
  (Hundef : P VUndefined) (Hnull : P VNull)
  (Hbool : forall b, P (VBool b)) (Hnum : forall n, P (VNum n))
  (Hstr : forall s, P (VStr s))
  (Harr : forall id elems, Forall P elems -> P (VArr id elems))
  (Hobj : forall id fields, Forall (fun kv => P (snd kv)) fields -> P (VObj id fields))
  (Hnan : P VNaN) :
  forall v, P v.
Proof.
  fix IH 1. intros [ | | b | n | s | id elems | id fields | ].
  - exact Hundef.
  - exact Hnull.
  - apply Hbool.
  - apply Hnum.
  - apply Hstr.
  - apply Harr. induction elems as [|e es IHes]; constructor; [apply IH | exact IHes].
  - apply Hobj. induction fields as [|[k e] fs IHfs]; constructor; [apply IH | exact IHfs].
  - exact Hnan.
Qed.

Lemma json_ind (P : JSON.json -> Prop)
  (Hnull : P JSON.JNull)
  (Hbool : forall b, P (JSON.JBool b)) (Hnum : forall n, P (JSON.JNum n))
  (Hstr : forall s, P (JSON.JStr s))
  (Harr : forall elems, Forall P elems -> P (JSON.JArr elems))
  (Hobj : forall fields, Forall (fun kj => P (snd kj)) fields -> P (JSON.JObj fields)) :
  forall j, P j.
Proof.
  fix IH 1. intros [ | b | n | s | elems | fields ].
  - exact Hnull.
  - apply Hbool.
  - apply Hnum.
  - apply Hstr.
  - apply Harr. induction elems as [|e es IHes]; constructor; [apply IH | exact IHes].
  - apply Hobj. induction fields as [|[k e] fs IHfs]; constructor; [apply IH | exact IHfs].
Qed.

(** ** [JSON.stringify] determines the JSON tree *)

Section StringifyInjective.
Import JSON.

Lemma unescape_escape c t : unescape (escape_char c ++ t) = Some (c, t).
Proof. destruct c as [[] [] [] [] [] [] [] []]; reflexivity. Qed.

Lemma escape_string_inj s1 : forall s2 r1 r2,
  escape_string s1 ++ dquote :: r1 = escape_string s2 ++ dquote :: r2 ->
  s1 = s2 /\ r1 = r2.
Proof.
  induction s1 as [|c1 s1 IH]; intros [|c2 s2] r1 r2 H; simpl in H.
  - injection H as ->. auto.
  - apply (f_equal unescape) in H. rewrite <- app_assoc, unescape_escape in H.
    discriminate H.
  - apply (f_equal unescape) in H. rewrite <- app_assoc, unescape_escape in H.
    discriminate H.
  - rewrite <- !app_assoc in H. apply (f_equal unescape) in H.
    rewrite !unescape_escape in H. injection H as -> H.
    destruct (IH _ _ _ H) as [-> ->]. auto.
Qed.

Lemma quote_inj s1 s2 r1 r2 :
  QuoteJSONString s1 ++ r1 = QuoteJSONString s2 ++ r2 -> s1 = s2 /\ r1 = r2.
Proof.
  unfold QuoteJSONString. simpl. rewrite <- !app_assoc. simpl.
  intros H. injection H as H. eapply escape_string_inj; eauto.
Qed.

Lemma uint_chars d :
  Forall (fun c => is_num_char c = true)
         (list_ascii_of_string (NilEmpty.string_of_uint d)).
Proof. induction d; simpl; constructor; auto. Qed.

Lemma to_int_proper n : Z.to_int n <> Decimal.Pos Decimal.Nil /\
                        Z.to_int n <> Decimal.Neg Decimal.Nil.
Proof.
  destruct n as [|p|p]; simpl; split; try discriminate;
    intros [= H]; exact (Unsigned.to_uint_nonnil p H).
Qed.

Lemma number_chars n : Forall (fun c => is_num_char c = true) (number_to_string n).
Proof.
  unfold number_to_string.
  destruct (Z.to_int n) as [d|d]; simpl.
  - destruct d; try apply (uint_chars (_ _)). simpl. constructor; auto.
  - constructor; [reflexivity|].
    destruct d; try apply (uint_chars (_ _)). simpl. constructor; auto.
Qed.

Lemma number_head n : exists c t, number_to_string n = c :: t /\ is_num_char c = true.
Proof.
  pose proof (number_chars n) as H.
  destruct (number_to_string n) as [|c t] eqn:E.
  - exfalso. unfold number_to_string in E.
    destruct (to_int_proper n) as [Hp Hn].
    destruct (Z.to_int n) as [d|d]; simpl in E.
    + destruct d; simpl in E; discriminate || (now apply Hp).
    + discriminate.
  - exists c, t. split; [reflexivity|]. now inversion H.
Qed.

Lemma number_to_string_inj n1 n2 :
  number_to_string n1 = number_to_string n2 -> n1 = n2.
Proof.
  unfold number_to_string. intros H.
  apply (f_equal string_of_list_ascii) in H.
  rewrite !string_of_list_ascii_of_string in H.
  apply (f_equal NilZero.int_of_string) in H.
  destruct (to_int_proper n1), (to_int_proper n2).
  rewrite !NilZero.isi in H by assumption.
  injection H as H. now apply DecimalZ.to_int_inj.
Qed.

(** Two runs of number characters that stop at a delimiter are the same run. *)
Lemma span_unique (l1 : list ascii) : forall l2 r1 r2,
  Forall (fun c => is_num_char c = true) l1 ->
  Forall (fun c => is_num_char c = true) l2 ->
  delimited r1 -> delimited r2 ->
  l1 ++ r1 = l2 ++ r2 -> l1 = l2 /\ r1 = r2.
Proof.
  induction l1 as [|a l1 IH]; intros [|b l2] r1 r2 H1 H2 D1 D2 H; simpl in H.
  - auto.
  - subst r1. inversion H2; subst. simpl in D1. congruence.
  - subst r2. inversion H1; subst. simpl in D2. congruence.
  - injection H as -> H.
    apply Forall_inv_tail in H1. apply Forall_inv_tail in H2.
    destruct (IH _ _ _ H1 H2 D1 D2 H) as [-> ->]. auto.
Qed.

Lemma number_inj n1 n2 r1 r2 :
  delimited r1 -> delimited r2 ->
  number_to_string n1 ++ r1 = number_to_string n2 ++ r2 -> n1 = n2 /\ r1 = r2.
Proof.
  intros D1 D2 H.
  destruct (span_unique _ _ _ _ (number_chars n1) (number_chars n2) D1 D2 H)
    as [Hn ->].
  split; [now apply number_to_string_inj | reflexivity].
Qed.

Lemma render_head j r : head_kind (render j ++ r) = json_kind j.
Proof.
  destruct j as [ | [] | n | s | elems | fields ]; try reflexivity.
  simpl render. destruct (number_head n) as (c & t & -> & Hc). simpl.
  unfold char_kind. now rewrite Hc.
Qed.

Lemma json_kind_proper j : json_kind j <> KOther.
Proof. destruct j as [ | [] | | | | ]; discriminate. Qed.

Lemma array_rest_delimited elems r : delimited (array_rest elems r).
Proof. destruct elems; reflexivity. Qed.

Lemma object_rest_delimited fields r : delimited (object_rest fields r).
Proof. destruct fields; reflexivity. Qed.

Lemma cons_tail_eq (a b : ascii) l1 l2 : a :: l1 = b :: l2 -> l1 = l2.
Proof. now intros [= _ ->]. Qed.

Lemma array_rest_cons x xs r :
  array_rest (x :: xs) r = ","%char :: render x ++ array_rest xs r.
Proof. unfold array_rest. simpl. now rewrite <- app_assoc. Qed.

Lemma object_rest_cons k x xs r :
  object_rest ((k, x) :: xs) r
  = ","%char :: render_member k (render x) ++ object_rest xs r.
Proof. unfold object_rest. simpl. now rewrite <- app_assoc. Qed.

Lemma member_inj k1 k2 t1 t2 r1 r2 :
  render_member k1 t1 ++ r1 = render_member k2 t2 ++ r2 ->
  k1 = k2 /\ t1 ++ r1 = t2 ++ r2.
Proof.
  unfold render_member. rewrite <- !app_assoc. intros H.
  apply quote_inj in H as [-> H]. simpl in H. injection H as H. auto.
Qed.

Lemma member_head k t r : head_kind (render_member k t ++ r) = KStr.
Proof. reflexivity. Qed.

Lemma array_rest_inj elems1 :
  Forall render_injective_at elems1 ->
  forall elems2 r1 r2,
    array_rest elems1 r1 = array_rest elems2 r2 -> elems1 = elems2 /\ r1 = r2.
Proof.
  induction 1 as [|x xs Hx _ IH]; intros [|y ys] r1 r2 H;
    rewrite ?array_rest_cons in H; try discriminate H.
  - injection H as ->. auto.
  - apply cons_tail_eq in H.
    destruct (Hx y _ _ (array_rest_delimited xs r1) (array_rest_delimited ys r2) H)
      as [-> H'].
    destruct (IH _ _ _ H') as [-> ->]. auto.
Qed.

Lemma object_rest_inj fields1 :
  Forall (fun kj => render_injective_at (snd kj)) fields1 ->
  forall fields2 r1 r2,
    object_rest fields1 r1 = object_rest fields2 r2 -> fields1 = fields2 /\ r1 = r2.
Proof.
  induction 1 as [|[k x] xs Hx _ IH]; intros [|[k' y] ys] r1 r2 H;
    rewrite ?object_rest_cons in H; try discriminate H.
  - injection H as ->. auto.
  - apply cons_tail_eq, member_inj in H as [-> H]. simpl in Hx.
    destruct (Hx y _ _ (object_rest_delimited xs r1) (object_rest_delimited ys r2) H)
      as [-> H'].
    destruct (IH _ _ _ H') as [-> ->]. auto.
Qed.

Lemma render_array_unfold elems r :
  render (JArr elems) ++ r =
  "["%char :: match elems with
              | [] => "]"%char :: r
              | x :: xs => render x ++ array_rest xs r
              end.
Proof.
  destruct elems as [|x xs]; simpl; [reflexivity|].
  unfold array_rest. now rewrite <- !app_assoc.
Qed.

Lemma render_object_unfold fields r :
  render (JObj fields) ++ r =
  "{"%char :: match fields with
              | [] => "}"%char :: r
              | kj :: xs => render_member (fst kj) (render (snd kj)) ++ object_rest xs r
              end.
Proof.
  destruct fields as [|x xs]; simpl; [reflexivity|].
  unfold object_rest. now rewrite <- !app_assoc.
Qed.

Lemma render_inj j1 : render_injective_at j1.
Proof.
  induction j1 as [ | b1 | n1 | s1 | elems1 IH | fields1 IH ] using json_ind;
    intros j2 r1 r2 D1 D2 H;
    pose proof (f_equal head_kind H) as Hk; rewrite !render_head in Hk;
    destruct j2 as [ | b2 | n2 | s2 | elems2 | fields2 ];
    try (destruct b1); try (destruct b2); try discriminate Hk; clear Hk.
  - simpl in H. injection H as ->. auto.
  - simpl in H. injection H as ->. auto.
  - simpl in H. injection H as ->. auto.
  - apply number_inj in H as [-> ->]; auto.
  - apply quote_inj in H as [-> ->]; auto.
  - rewrite !render_array_unfold in H. apply cons_tail_eq in H.
    destruct elems1 as [|x xs], elems2 as [|y ys].
    + injection H as ->. auto.
    + exfalso. apply (f_equal head_kind) in H. rewrite render_head in H.
      simpl in H. symmetry in H. now apply json_kind_proper in H.
    + exfalso. apply (f_equal head_kind) in H. rewrite render_head in H.
      simpl in H. now apply json_kind_proper in H.
    + inversion IH as [|? ? Hx Hxs]; subst.
      destruct (Hx y _ _ (array_rest_delimited xs r1) (array_rest_delimited ys r2) H)
        as [-> H'].
      destruct (array_rest_inj _ Hxs _ _ _ H') as [-> ->]. auto.
  - rewrite !render_object_unfold in H. apply cons_tail_eq in H.
    destruct fields1 as [|[k x] xs], fields2 as [|[k' y] ys].
    + injection H as ->. auto.
    + discriminate H.
    + discriminate H.
    + inversion IH as [|? ? Hx Hxs]; subst. simpl in Hx.
      simpl fst in H. simpl snd in H. apply member_inj in H as [-> H].
      destruct (Hx y _ _ (object_rest_delimited xs r1) (object_rest_delimited ys r2) H)
        as [-> H'].
      destruct (object_rest_inj _ Hxs _ _ _ H') as [-> ->]. auto.
Qed.

Lemma serialize_render v : serialize v = option_map render (to_json v).
Proof.
  induction v as [ | | [] | n | s | id elems IH | id fields IH | ] using value_ind;
    try reflexivity.
  - assert (E : List.map (fun e => match serialize e with
                                   | Some t => t
                                   | None => list_ascii_of_string "null"
                                   end) elems
                = List.map render
                    (List.map (fun e => match to_json e with
                                        | Some j => j
                                        | None => JNull
                                        end) elems)).
    { induction IH as [|e es He _ IHes]; cbn [List.map]; [reflexivity|].
      rewrite IHes, He. now destruct (to_json e). }
    cbn [serialize to_json option_map render]. now rewrite E.
  - assert (E : keep_some (List.map (fun kv =>
                    match serialize (snd kv) with
                    | Some t => Some (QuoteJSONString (fst kv) ++ ":"%char :: t)
                    | None => None
                    end) fields)
                = List.map (fun kj => render_member (fst kj) (render (snd kj)))
                    (keep_some (List.map (fun kv =>
                       match to_json (snd kv) with
                       | Some j => Some (fst kv, j)
                       | None => None
                       end) fields))).
    { induction IH as [|[k e] fs He _ IHfs]; [reflexivity|].
      cbn [snd fst] in He. unfold keep_some in *.
      cbn [List.map List.flat_map snd fst]. rewrite He, IHfs.
      now destruct (to_json e). }
    cbn [serialize to_json option_map render]. now rewrite E.
Qed.

(** Two values with the same JSON text denote the same tree. *)
Lemma stringify_inj v1 v2 :
  text_eq (stringify v1) (stringify v2) = true -> to_json v1 = to_json v2.
Proof.
  unfold stringify. rewrite !serialize_render.
  destruct (to_json v1) as [j1|], (to_json v2) as [j2|]; simpl;
    try discriminate; [|reflexivity].
  intros H. apply String.eqb_eq in H.
  apply (f_equal list_ascii_of_string) in H.
  rewrite !list_ascii_of_string_of_list_ascii in H.
  assert (H' : render j1 ++ [] = render j2 ++ []) by now rewrite !app_nil_r.
  apply render_inj in H' as [-> _]; simpl; auto.
Qed.

Lemma stringify_same v1 v2 :
  to_json v1 = to_json v2 -> text_eq (stringify v1) (stringify v2) = true.
Proof.
  unfold stringify. rewrite !serialize_render. intros ->.
  destruct (to_json v2); simpl; [apply String.eqb_refl | reflexivity].
Qed.

End StringifyInjective.

(** ** The comparator *)

Section Comparator.
Import JSON.

(** Case analysis on the name [f] of a field looked up in a literal object. *)
Ltac case_field f :=
  match goal with
  | |- context [String.eqb ?k f] =>
      destruct (String.eqb_spec k f) as [<-|?]; try congruence
  end.

Lemma strict_eq_refl v : is_nan v = false -> strict_eq v v = true.
Proof.
  destruct v; simpl; auto using Bool.eqb_reflx, Z.eqb_refl, String.eqb_refl,
    Pos.eqb_refl.
Qed.

Lemma is_plain_not_nan v : is_plain v = true -> is_nan v = false.
Proof. destruct v; simpl; congruence. Qed.

Lemma to_json_content v : to_json (content v) = to_json v.
Proof.
  induction v as [ | | b | n | s | id elems IH | id fields IH | ] using value_ind;
    try reflexivity.
  - cbn [content to_json]. do 2 f_equal. rewrite List.map_map.
    apply List.map_ext_Forall. revert IH. apply List.Forall_impl.
    now intros e ->.
  - cbn [content to_json]. do 3 f_equal. rewrite List.map_map.
    apply List.map_ext_Forall. revert IH. apply List.Forall_impl.
    intros [k e] He. cbn [fst snd] in *. now rewrite He.
Qed.

Lemma truthy_content v : truthy (content v) = truthy v.
Proof. destruct v; reflexivity. Qed.

(** Two values with the same content have the same JSON text, alone and
    with [{}] as a default. *)
Lemma content_to_json a b : content a = content b -> to_json a = to_json b.
Proof. intros H. now rewrite <- (to_json_content a), H, to_json_content. Qed.

Lemma content_or_else a b :
  content a = content b ->
  to_json (or_else a empty_object) = to_json (or_else b empty_object).
Proof.
  intros H. unfold or_else.
  rewrite <- (truthy_content a), <- (truthy_content b), H.
  destruct (truthy (content b)); [now apply content_to_json | reflexivity].
Qed.

Lemma content_plain a b :
  content a = content b -> is_plain a = true -> strict_eq a b = true.
Proof.
  intros H Ha. destruct a; try discriminate Ha; destruct b; try discriminate H;
    simpl in H; inversion H; subst; simpl;
    auto using Bool.eqb_reflx, Z.eqb_refl, String.eqb_refl.
Qed.

Lemma strict_eq_sym a b : strict_eq a b = strict_eq b a.
Proof.
  destruct a as [ | | x | x | x | i ? | i ? | ], b as [ | | y | y | y | j ? | j ? | ];
    simpl; auto using Z.eqb_sym, String.eqb_sym, Pos.eqb_sym.
  now destruct x, y.
Qed.

Lemma text_eq_iff v1 v2 :
  text_eq (stringify v1) (stringify v2) = true <-> to_json v1 = to_json v2.
Proof. split; [apply stringify_inj | apply stringify_same]. Qed.

Lemma char_is_not_text s : existsb (strict_eq (VStr "text")) (chars_of s) = false.
Proof.
  induction s as [|c s IH]; [reflexivity|].
  cbn [chars_of existsb strict_eq String.eqb]. rewrite IH, orb_false_r.
  destruct (Ascii.eqb "t" c); reflexivity.
Qed.

Lemma is_text_json v :
  strict_eq (VStr "text") v
  = json_is_text (match to_json v with Some j => j | None => JNull end).
Proof. destruct v; reflexivity. Qed.

Lemma elems_mention_text elems :
  existsb (strict_eq (VStr "text")) elems
  = existsb json_is_text
      (List.map (fun e => match to_json e with Some j => j | None => JNull end)
         elems).
Proof.
  induction elems as [|e es IH]; [reflexivity|].
  cbn [existsb List.map]. now rewrite IH, is_text_json.
Qed.

Lemma fields_mention_text (fields : props) :
  existsb (strict_eq (VStr "text")) (List.map snd fields)
  = existsb (fun kj => json_is_text (snd kj))
      (keep_some (List.map (fun kv =>
         match to_json (snd kv) with
         | Some j => Some (fst kv, j)
         | None => None
         end) fields)).
Proof.
  unfold keep_some.
  induction fields as [|[k e] fs IH]; [reflexivity|].
  cbn [existsb List.map List.flat_map fst snd]. rewrite IH, is_text_json.
  destruct (to_json e); reflexivity.
Qed.

(** Whether a key pattern has a "text" kind can be read off its JSON tree. *)
Lemma mentions_text_json v :
  truthy v && array_includes (Object_values v) (VStr "text")
  = json_mentions_text (to_json v).
Proof.
  unfold array_includes.
  destruct v as [ | | b | n | s | id elems | id fields | ];
    cbn [truthy Object_values to_json json_mentions_text andb];
    rewrite ?andb_false_r; try reflexivity.
  - now rewrite char_is_not_text, andb_false_r.
  - apply elems_mention_text.
  - apply fields_mention_text.
Qed.

Lemma is_text_index_json index :
  is_text_index index = json_mentions_text (to_json (get "key" index)).
Proof. apply mentions_text_json. Qed.

(** The comparator, in terms of the JSON trees of what it serializes. *)
Lemma areIndexesEquivalent_iff a b :
  areIndexesEquivalent a b = true <->
  to_json (get "key" a) = to_json (get "key" b) /\
  strict_eq (get "unique" a) (get "unique" b) = true /\
  strict_eq (get "sparse" a) (get "sparse" b) = true /\
  strict_eq (get "expireAfterSeconds" a) (get "expireAfterSeconds" b) = true /\
  (is_text_index a = true ->
   to_json (or_else (get "weights" a) empty_object)
   = to_json (or_else (get "weights" b) empty_object)) /\
  to_json (or_else (get "partialFilterExpression" a) empty_object)
  = to_json (or_else (get "partialFilterExpression" b) empty_object).
Proof.
  unfold areIndexesEquivalent. cbv zeta. rewrite <- !text_eq_iff.
  destruct (text_eq (stringify (get "key" a)) _);
    destruct (strict_eq (get "unique" a) _);
    destruct (strict_eq (get "sparse" a) _);
    destruct (strict_eq (get "expireAfterSeconds" a) _);
    destruct (is_text_index a);
    destruct (text_eq (stringify (or_else (get "weights" a) _)) _);
    destruct (text_eq (stringify (or_else (get "partialFilterExpression" a) _)) _);
    simpl; intuition congruence.
Qed.

Lemma areIndexesEquivalent_sym a b :
  areIndexesEquivalent a b = areIndexesEquivalent b a.
Proof.
  apply eq_true_iff_eq. rewrite !areIndexesEquivalent_iff.
  rewrite !is_text_index_json, !(strict_eq_sym (get _ a)).
  split; intros (K & U & S & T & W & F); rewrite ?K in *; intuition congruence.
Qed.

Lemma areIndexesEquivalent_agree a b :
  (forall f, f <> "name" -> f <> "background" -> get f a = get f b) ->
  is_nan (get "unique" a) = false ->
  is_nan (get "sparse" a) = false ->
  is_nan (get "expireAfterSeconds" a) = false ->
  areIndexesEquivalent a b = true.
Proof.
  intros H U S T. apply areIndexesEquivalent_iff.
  rewrite <- !H by discriminate. rewrite !strict_eq_refl by assumption.
  repeat split.
Qed.

Lemma areIndexesEquivalent_same_content a b :
  (forall f, f <> "name" -> f <> "background" ->
             content (get f a) = content (get f b)) ->
  is_plain (get "unique" a) = true ->
  is_plain (get "sparse" a) = true ->
  is_plain (get "expireAfterSeconds" a) = true ->
  areIndexesEquivalent a b = true.
Proof.
  intros H U S T. apply areIndexesEquivalent_iff.
  repeat split.
  - apply content_to_json, H; discriminate.
  - apply content_plain; [apply H; discriminate | exact U].
  - apply content_plain; [apply H; discriminate | exact S].
  - apply content_plain; [apply H; discriminate | exact T].
  - intros _. apply content_or_else, H; discriminate.
  - apply content_or_else, H; discriminate.
Qed.

(** C2, as the code has it.  The comparator is symmetric; it is reflexive on
    every descriptor whose [unique], [sparse] and [expireAfterSeconds] are
    not [NaN]; and two descriptors that differ only in their [name] and
    [background] fields, every other field having the same content in both
    (whatever the identity of the objects in it), are equivalent when
    [unique], [sparse] and [expireAfterSeconds] are primitive values other
    than [NaN]. *)
Theorem areIndexesEquivalent_partial_equivalence :
  (forall d,
     is_nan (get "unique" d) = false ->
     is_nan (get "sparse" d) = false ->
     is_nan (get "expireAfterSeconds" d) = false ->
     areIndexesEquivalent d d = true) /\
  (forall a b, areIndexesEquivalent a b = areIndexesEquivalent b a) /\
  (forall a b,
     (forall f, f <> "name" -> f <> "background" ->
                content (get f a) = content (get f b)) ->
     is_plain (get "unique" a) = true ->
     is_plain (get "sparse" a) = true ->
     is_plain (get "expireAfterSeconds" a) = true ->
     areIndexesEquivalent a b = true).
Proof.
  split; [|split].
  - intros d. now apply areIndexesEquivalent_agree.
  - apply areIndexesEquivalent_sym.
  - apply areIndexesEquivalent_same_content.
Qed.

Lemma areIndexesEquivalent_partial_equivalence_witness :
  areIndexesEquivalent index_a_unique_object index_a_unique_object = true /\
  areIndexesEquivalent index_a index_a_read_again
  = areIndexesEquivalent index_a_read_again index_a /\
  strict_eq (get "key" index_a) (get "key" index_a_read_again) = false /\
  areIndexesEquivalent index_a index_a_read_again = true.
Proof.
  split; [|split; [|split]].
  - apply (proj1 areIndexesEquivalent_partial_equivalence); reflexivity.
  - apply (proj1 (proj2 areIndexesEquivalent_partial_equivalence)).
  - reflexivity.
  - apply (proj2 (proj2 areIndexesEquivalent_partial_equivalence));
      [|reflexivity|reflexivity|reflexivity].
    intros f Hname Hbackground.
    unfold get, index_a, index_a_read_again, lookup_prop.
    repeat case_field f; reflexivity.
Defined.

(** C2, counterexample: a descriptor whose [expireAfterSeconds] is [NaN] is
    not equivalent to itself; and two descriptors with the same content whose
    [unique] is an object, read separately, are not equivalent. *)
Lemma nan_ttl_is_not_equivalent_to_itself :
  areIndexesEquivalent index_a_ttl_nan index_a_ttl_nan = false /\
  (forall f, content (get f index_a_unique_object)
             = content (get f index_a_unique_object_read_again)) /\
  areIndexesEquivalent index_a_unique_object index_a_unique_object_read_again
  = false.
Proof.
  split; [vm_compute; reflexivity | split; [|vm_compute; reflexivity]].
  intros f. unfold get, index_a_unique_object, index_a_unique_object_read_again,
    lookup_prop.
  repeat case_field f; reflexivity.
Qed.

(** C3, as the code has it.  [unique], [sparse] and [expireAfterSeconds] are
    compared with [===], a missing field reading as [undefined], which equals
    nothing but [undefined]: equivalent descriptors agree strictly on the
    three fields; a descriptor without [expireAfterSeconds] is not equivalent
    to one with [expireAfterSeconds = 0]; and a descriptor without [unique] is
    not equivalent to one with [unique: false]. *)
Theorem option_fields_compared_strictly :
  (forall a b, areIndexesEquivalent a b = true ->
     strict_eq (get "unique" a) (get "unique" b) = true /\
     strict_eq (get "sparse" a) (get "sparse" b) = true /\
     strict_eq (get "expireAfterSeconds" a) (get "expireAfterSeconds" b) = true) /\
  (forall a b, get "expireAfterSeconds" a = VUndefined ->
     get "expireAfterSeconds" b = VNum 0 -> areIndexesEquivalent a b = false) /\
  (forall a b, get "unique" a = VUndefined ->
     get "unique" b = VBool false -> areIndexesEquivalent a b = false).
Proof.
  split; [|split].
  - intros a b H. apply areIndexesEquivalent_iff in H. tauto.
  - intros a b Ha Hb. apply not_true_is_false. intros H.
    apply areIndexesEquivalent_iff in H as (_ & _ & _ & H & _).
    rewrite Ha, Hb in H. discriminate H.
  - intros a b Ha Hb. apply not_true_is_false. intros H.
    apply areIndexesEquivalent_iff in H as (_ & H & _).
    rewrite Ha, Hb in H. discriminate H.
Qed.

Lemma option_fields_compared_strictly_witness :
  (strict_eq (get "unique" index_a) (get "unique" index_a_renamed) = true /\
   strict_eq (get "sparse" index_a) (get "sparse" index_a_renamed) = true /\
   strict_eq (get "expireAfterSeconds" index_a)
             (get "expireAfterSeconds" index_a_renamed) = true) /\
  areIndexesEquivalent index_a index_a_ttl0 = false /\
  areIndexesEquivalent index_a index_a_not_unique = false.
Proof.
  split; [|split].
  - apply (proj1 option_fields_compared_strictly). vm_compute. reflexivity.
  - apply (proj1 (proj2 option_fields_compared_strictly)); reflexivity.
  - apply (proj2 (proj2 option_fields_compared_strictly)); reflexivity.
Defined.

(** C3, counterexample: without [unique] and with [unique: false], all else
    identical, the two descriptors are not equivalent. *)
Lemma absent_unique_is_not_false :
  lookup_prop "unique" index_a = None /\
  get "unique" index_a_not_unique = VBool false /\
  delete_prop "unique" index_a_not_unique = index_a /\
  areIndexesEquivalent index_a index_a_not_unique = false.
Proof. repeat split; vm_compute; reflexivity. Qed.




Lemma kinds_to_json_inj (ka : props) : forall kb : props,
  Forall (fun kv => is_kind (snd kv) = true) ka ->
  Forall (fun kv => is_kind (snd kv) = true) kb ->
  keep_some (List.map (fun kv =>
     match to_json (snd kv) with Some j => Some (fst kv, j) | None => None end) ka)
  = keep_some (List.map (fun kv =>
     match to_json (snd kv) with Some j => Some (fst kv, j) | None => None end) kb) ->
  ka = kb.
Proof.
  unfold keep_some.
  induction ka as [|[k x] ka IH]; intros [|[k' y] kb] Ha Hb H.
  - reflexivity.
  - apply Forall_inv in Hb. destruct y; discriminate.
  - apply Forall_inv in Ha. destruct x; discriminate.
  - pose proof (Forall_inv Ha) as Hx. pose proof (Forall_inv Hb) as Hy.
    apply Forall_inv_tail in Ha, Hb.
    destruct x; try discriminate Hx; destruct y; try discriminate Hy;
      cbn in H; inversion H; subst; f_equal; auto.
Qed.

(** C5. Key patterns are compared with their field order and their
    direction or kind values: two descriptors whose key patterns differ, by
    listing the same fields in another order or by giving a field another
    direction or kind, are not equivalent. *)
Theorem key_pattern_order_and_kinds_matter a b ida idb (ka kb : props) :
  get "key" a = VObj ida ka -> get "key" b = VObj idb kb ->
  Forall (fun kv => is_kind (snd kv) = true) ka ->
  Forall (fun kv => is_kind (snd kv) = true) kb ->
  ka <> kb ->
  areIndexesEquivalent a b = false.
Proof.
  intros Ha Hb Ka Kb Hne. apply not_true_is_false. intros H.
  apply areIndexesEquivalent_iff in H as (H & _).
  rewrite Ha, Hb in H. cbn [to_json] in H. injection H as H.
  apply Hne. now apply kinds_to_json_inj.
Qed.

Lemma key_pattern_order_and_kinds_matter_witness :
  Permutation [("a", VNum 1); ("b", VNum 1)] [("b", VNum 1); ("a", VNum 1)] /\
  areIndexesEquivalent index_ab index_ba = false.
Proof.
  split; [apply perm_swap|].
  apply (key_pattern_order_and_kinds_matter index_ab index_ba 12 13
           [("a", VNum 1); ("b", VNum 1)] [("b", VNum 1); ("a", VNum 1)]);
    try reflexivity.
  - repeat constructor.
  - repeat constructor.
  - discriminate.
Defined.

End Comparator.

(** ** The applier *)

Section Applier.

Lemma index_label_run indexSpec w d :
  heap w !! indexSpec = Some d ->
  index_label indexSpec w = (w, Returned (label_of d)).
Proof.
  intros H. unfold index_label, bind, read, label_of, or_else. rewrite H.
  destruct (truthy (get "name" d)); [reflexivity|].
  unfold bind. now rewrite H.
Qed.

Lemma handler_run collectionName indexSpec w d e :
  heap w !! indexSpec = Some d ->
  (if is_duplicate_index e then
     label <- index_label indexSpec ;;
     logger Warning (IndexAlreadyExists label collectionName)
   else
     label <- index_label indexSpec ;;
     logger Error (FailedToCreateIndex label collectionName (message e))) w
  = (with_console w [failure_report e d collectionName], Returned tt).
Proof.
  intros H. unfold failure_report.
  destruct (is_duplicate_index e); unfold bind; rewrite (index_label_run _ _ _ H);
    reflexivity.
Qed.

Lemma fresh_ref_differs (h : gmap positive props) ref d :
  h !! ref = Some d -> fresh (dom h) <> ref.
Proof.
  intros H E. apply (is_fresh (dom h)). rewrite E. apply elem_of_dom. eauto.
Qed.

(** What one call of [createIndex] does, for a descriptor in the heap. *)
Lemma createIndex_run db collectionName indexSpec w d :
  heap w !! indexSpec = Some d ->
  createIndex db collectionName indexSpec w =
  match db_collection db collectionName with
  | Some e => (with_console w [failure_report e d collectionName], Returned tt)
  | None =>
      if is_id_index d then
        (with_console w [(Info, SkippingIdIndex collectionName)], Returned tt)
      else
        let options := fresh (dom (heap w)) in
        let w1 := {| heap := <[options := forwarded_options d]> (heap w);
                     requests := requests w ++ [request_for collectionName d];
                     console := console w |} in
        match db_createIndex db (requests w) (request_for collectionName d) with
        | Some e => (with_console w1 [failure_report e d collectionName], Returned tt)
        | None =>
            (with_console w1 [(Success, CreatedIndex (label_of d) collectionName)],
             Returned tt)
        end
  end.
Proof.
  intros H. pose proof (fresh_ref_differs _ _ _ H) as Hne.
  unfold createIndex, try_catch, collection.
  destruct (db_collection db collectionName) as [e|].
  - unfold bind, throw. apply handler_run. exact H.
  - unfold bind at 1. unfold ret. unfold bind at 1. unfold read at 1. rewrite H.
    fold (is_id_index d). destruct (is_id_index d); [reflexivity|].
    unfold bind, read, spread, delete_field, driver_createIndex, logger.
    rewrite !H. cbn [heap requests console default from_option id].
    rewrite !alter_insert_eq, !lookup_insert_eq, ?H.
    cbn [heap requests console default from_option id].
    fold (forwarded_options d). fold (request_for collectionName d).
    destruct (db_createIndex db (requests w) (request_for collectionName d)) as [e|].
    + apply handler_run. cbn [heap]. now rewrite lookup_insert_ne.
    + cbn [heap requests console]. rewrite lookup_insert_ne by exact Hne.
      rewrite H. reflexivity.
Qed.

(** With [undefined] for a descriptor nothing is written to the heap. *)
Lemma createIndex_run_no_object db collectionName indexSpec w :
  heap w !! indexSpec = None ->
  heap (fst (createIndex db collectionName indexSpec w)) = heap w.
Proof.
  intros H.
  unfold createIndex, try_catch, collection, index_label, bind, read, throw, ret,
    logger.
  destruct (db_collection db collectionName) as [e|]; rewrite ?H;
    try destruct (is_duplicate_index e); rewrite ?H; try reflexivity;
    cbn [fst heap]; destruct (is_duplicate_index type_error); rewrite ?H;
    reflexivity.
Qed.

(** The objects of the heap are the same after a call. *)
Lemma createIndex_frame db collectionName indexSpec w ref o :
  heap w !! ref = Some o ->
  heap (fst (createIndex db collectionName indexSpec w)) !! ref = Some o.
Proof.
  intros Ho. destruct (heap w !! indexSpec) as [d|] eqn:H.
  - rewrite (createIndex_run _ _ _ _ _ H).
    pose proof (fresh_ref_differs _ _ _ Ho) as Hne.
    destruct (db_collection db collectionName); [exact Ho|].
    destruct (is_id_index d); [exact Ho|]. cbv zeta.
    destruct (db_createIndex _ _ _); cbn [fst heap with_console];
      now rewrite lookup_insert_ne.
  - now rewrite createIndex_run_no_object.
Qed.

Lemma lookup_delete_prop f g (o : props) :
  lookup_prop f (delete_prop g o)
  = if String.eqb g f then None else lookup_prop f o.
Proof.
  unfold delete_prop. induction o as [|[k v] o IH]; cbn [List.filter lookup_prop fst].
  - now destruct (String.eqb g f).
  - destruct (String.eqb_spec k g) as [->|Hkg]; cbn [negb lookup_prop].
    + rewrite IH. now destruct (String.eqb g f).
    + rewrite IH. destruct (String.eqb_spec k f) as [->|Hkf]; [|reflexivity].
      destruct (String.eqb_spec g f); congruence.
Qed.

Lemma forwarded_options_filter (d : props) :
  forwarded_options d
  = List.filter (fun kv => negb (String.eqb (fst kv) "key" || String.eqb (fst kv) "v"
                                 || String.eqb (fst kv) "ns")) d.
Proof.
  unfold forwarded_options, delete_prop.
  induction d as [|[k v] d IH]; [reflexivity|]. cbn [List.filter fst].
  destruct (String.eqb k "key"); cbn [negb orb List.filter fst]; [exact IH|].
  destruct (String.eqb k "v"); cbn [negb orb List.filter fst]; [exact IH|].
  destruct (String.eqb k "ns"); cbn [negb orb List.filter fst]; [exact IH|].
  now rewrite IH.
Qed.

Lemma createIndex_isolates_errors_run db collectionName indexSpec w d :
  heap w !! indexSpec = Some d ->
  exists w', createIndex db collectionName indexSpec w = (w', Returned tt).
Proof.
  intros H. rewrite (createIndex_run _ _ _ _ _ H).
  destruct (db_collection db collectionName); [eauto|].
  destruct (is_id_index d); [eauto|]. cbv zeta.
  destruct (db_createIndex _ _ _); eauto.
Qed.

Lemma prefix_app t : forall s,
  String.prefix t s = true <-> exists post, s = String.append t post.
Proof.
  induction t as [|a t IH]; intros s.
  - split; [intros _; now exists s | now destruct s].
  - destruct s as [|b s]; cbn [String.prefix].
    + split; [discriminate | intros [post H]; discriminate H].
    + destruct (ascii_dec a b) as [->|Hab].
      * rewrite IH. split; intros [post H]; exists post.
        -- change (String b s = String b (String.append t post)). now rewrite H.
        -- change (String b s = String b (String.append t post)) in H.
           now injection H.
      * split; [discriminate|]. intros [post H].
        change (String b s = String a (String.append t post)) in H. congruence.
Qed.

(** [s.includes(t)]: [t] occurs in [s]. *)
Lemma string_includes_spec s t :
  string_includes s t = true
  <-> exists pre post, s = String.append pre (String.append t post).
Proof.
  induction s as [|a s IH]; cbn [string_includes]; rewrite orb_true_iff.
  - rewrite prefix_app. split.
    + intros [[post H]|H]; [now exists EmptyString, post | discriminate H].
    + intros ([|c pre] & post & H); [left; now exists post | discriminate H].
  - rewrite prefix_app, IH. split.
    + intros [[post H]|(pre & post & H)].
      * now exists EmptyString, post.
      * exists (String a pre), post.
        change (String a s
                = String a (String.append pre (String.append t post))).
        now rewrite H.
    + intros ([|c pre] & post & H).
      * left. now exists post.
      * right. exists pre, post.
        change (String a s
                = String c (String.append pre (String.append t post))) in H.
        now injection H.
Qed.

(** The errors the [catch] block takes for a duplicate index: those of code
    85 and those whose message has "already exists" in it. *)
Lemma is_duplicate_index_spec e :
  is_duplicate_index e = true
  <-> code e = VNum 85
      \/ exists pre post,
           message e = String.append pre (String.append "already exists" post).
Proof.
  unfold is_duplicate_index. rewrite orb_true_iff, string_includes_spec.
  assert (H : strict_eq (code e) (VNum 85) = true <-> code e = VNum 85).
  { destruct (code e); simpl; try (split; congruence).
    rewrite Z.eqb_eq. split; congruence. }
  now rewrite H.
Qed.

(** C7, where the code departs from it.  Given [undefined] for a descriptor,
    as [createCustomIndexes] gives it the [index] of an entry without one,
    [createIndex] throws: the [catch] block reads [indexSpec.name] to build
    its line, which throws a TypeError as it does in the [try] block, with
    nothing logged and no create sent.  Given a
    descriptor object no error escapes: when [db.collection] or the create
    fails with a duplicate-index error (code 85, or a message with "already
    exists" in it) the call logs the "already exists" warning and returns;
    with any other error it logs the failure with its cause and returns; and
    the loop over the descriptors goes on with the next one. *)
Theorem createIndex_error_isolation :
  (forall db collectionName indexSpec w,
     heap w !! indexSpec = None ->
     createIndex db collectionName indexSpec w = (w, Thrown type_error)) /\
  (forall db collectionName indexSpec w d,
     heap w !! indexSpec = Some d ->
     exists w',
       createIndex db collectionName indexSpec w = (w', Returned tt) /\
       (forall e,
          db_collection db collectionName = Some e \/
          db_collection db collectionName = None /\ is_id_index d = false /\
          db_createIndex db (requests w) (request_for collectionName d) = Some e ->
          (code e = VNum 85
           \/ (exists pre post,
                 message e
                 = String.append pre (String.append "already exists" post)) ->
           console w'
           = console w
             ++ [(Warning, IndexAlreadyExists (label_of d) collectionName)]) /\
          (~ (code e = VNum 85
              \/ exists pre post,
                   message e
                   = String.append pre (String.append "already exists" post)) ->
           console w'
           = console w
             ++ [(Error, FailedToCreateIndex (label_of d) collectionName
                           (message e))])) /\
       (forall rest,
          createEachIndex db collectionName (indexSpec :: rest) w
          = createEachIndex db collectionName rest w')).
Proof.
  split.
  - intros db collectionName indexSpec w H.
    unfold createIndex, try_catch, collection, index_label, bind, read, throw,
      ret, logger.
    destruct (db_collection db collectionName) as [e|]; rewrite ?H.
    + destruct (is_duplicate_index e); now rewrite H.
    + destruct (is_duplicate_index type_error); now rewrite H.
  - intros db collectionName indexSpec w d H.
    destruct (createIndex_isolates_errors_run db collectionName indexSpec w d H)
      as [w' R]. exists w'. split; [exact R|split].
    + intros e He. rewrite <- is_duplicate_index_spec.
      rewrite (createIndex_run _ _ _ _ _ H) in R.
      assert (C : console w'
                  = console w ++ [failure_report e d collectionName]).
      { destruct He as [Hc|(Hc & Hid & He)]; rewrite Hc in R.
        - now injection R as <-.
        - rewrite Hid in R. cbv zeta in R. rewrite He in R. now injection R as <-. }
      rewrite C. unfold failure_report. split.
      * now intros ->.
      * intros Hn. apply not_true_is_false in Hn. now rewrite Hn.
    + intros rest. cbn [createEachIndex]. unfold bind. now rewrite R.
Qed.

Lemma createIndex_error_isolation_witness :
  createIndex sample_target "users" 9%positive sample_world
  = (sample_world, Thrown type_error) /\
  exists w',
    createIndex target_up_to_date "users" 5%positive sample_world
    = (w', Returned tt) /\
    console w' = [(Warning, IndexAlreadyExists (VStr "email_1") "users")] /\
    createEachIndex target_up_to_date "users" [5%positive; 6%positive] sample_world
    = createEachIndex target_up_to_date "users" [6%positive] w'.
Proof.
  split.
  - apply (proj1 createIndex_error_isolation sample_target "users" 9%positive
             sample_world).
    reflexivity.
  - destruct (proj2 createIndex_error_isolation target_up_to_date "users"
                5%positive sample_world index_email) as (w' & R & L & C).
    + reflexivity.
    + exists w'. split; [exact R|]. split; [|apply C].
      destruct (L index_exists) as [Ldup _].
      * right. repeat split; reflexivity.
      * rewrite Ldup; [reflexivity|]. left. reflexivity.
Defined.

(** C8. For a descriptor not named [_id_] the driver receives the [key] of
    the descriptor as its first argument and, as options, the fields of the
    descriptor in their order and with their values, except [key], [v] and
    [ns], which it never receives. *)
Theorem createIndex_forwards_options db collectionName indexSpec w d :
  heap w !! indexSpec = Some d ->
  is_id_index d = false ->
  db_collection db collectionName = None ->
  exists options,
    requests (fst (createIndex db collectionName indexSpec w))
    = requests w ++ [{| on_collection := collectionName;
                        keys_arg := get "key" d;
                        options_arg := options |}] /\
    options = List.filter (fun kv => negb (String.eqb (fst kv) "key"
                                           || String.eqb (fst kv) "v"
                                           || String.eqb (fst kv) "ns")) d /\
    (forall f,
       lookup_prop f options
       = if String.eqb "key" f || String.eqb "v" f || String.eqb "ns" f
         then None else lookup_prop f d).
Proof.
  intros H Hid Hc. exists (forwarded_options d). split; [|split].
  - rewrite (createIndex_run _ _ _ _ _ H), Hc, Hid. cbv zeta.
    destruct (db_createIndex _ _ _); reflexivity.
  - apply forwarded_options_filter.
  - intros f. unfold forwarded_options. rewrite !lookup_delete_prop.
    destruct (String.eqb "key" f), (String.eqb "v" f), (String.eqb "ns" f);
      reflexivity.
Qed.

Lemma createIndex_forwards_options_witness :
  requests (fst (createIndex sample_target "users" 5%positive sample_world))
  = [{| on_collection := "users";
        keys_arg := VObj 32 [("email", VNum 1)];
        options_arg := [("name", VStr "email_1"); ("unique", VBool true)] |}].
Proof.
  assert (H : heap sample_world !! 5%positive = Some index_email) by reflexivity.
  destruct (createIndex_forwards_options sample_target "users" 5%positive
              sample_world index_email H eq_refl eq_refl) as (options & R & -> & _).
  exact R.
Defined.

(** The loop over the descriptors of a collection runs to its end. *)
Lemma createEachIndex_returns db collectionName indexes : forall w,
  Forall (fun indexSpec => is_Some (heap w !! indexSpec)) indexes ->
  exists w', createEachIndex db collectionName indexes w = (w', Returned tt).
Proof.
  induction indexes as [|indexSpec rest IH]; intros w H.
  - exists w. reflexivity.
  - pose proof (Forall_inv H) as [d Hd]. apply Forall_inv_tail in H.
    destruct (createIndex_isolates_errors_run db collectionName indexSpec w d Hd)
      as [w1 R].
    cbn [createEachIndex]. unfold bind. rewrite R. apply IH.
    eapply List.Forall_impl; [|exact H]. intros ref [o Ho]. exists o.
    replace w1 with (fst (createIndex db collectionName indexSpec w))
      by now rewrite R.
    now apply createIndex_frame.
Qed.

(** What the copy is for: [delete] on a reference writes to the object. *)
Lemma delete_field_writes ref f w d :
  heap w !! ref = Some d ->
  heap (fst (delete_field ref f w)) !! ref = Some (delete_prop f d).
Proof. intros H. cbn [delete_field fst heap]. now rewrite lookup_alter_eq, H. Qed.

(** C10. [createIndex] does not write to the descriptor it is given: the
    fields are deleted from a copy, and the object behind [indexSpec] has the
    same fields after the call as before. *)
Theorem createIndex_leaves_descriptor db collectionName indexSpec w :
  heap (fst (createIndex db collectionName indexSpec w)) !! indexSpec
  = heap w !! indexSpec.
Proof.
  destruct (heap w !! indexSpec) as [d|] eqn:H.
  - now apply createIndex_frame.
  - now rewrite createIndex_run_no_object.
Qed.

End Applier.

(** ** The inventory reader and the planner *)

Section Planner.

Lemma getIndexes_run db collectionName w :
  getIndexes db collectionName w
  = (with_console w [read_report db collectionName],
     Returned (inventory db collectionName)).
Proof.
  unfold getIndexes, try_catch, collection, read_report, inventory, bind, throw,
    ret, logger.
  destruct (db_collection db collectionName); [reflexivity|].
  destruct (db_indexes db collectionName); reflexivity.
Qed.

(** C9. When the read of a collection's indexes fails, [getIndexes] does not
    throw: it logs the failure and returns the empty array, and the heap and
    the driver are left as they were. *)
Theorem getIndexes_tolerates_failure db collectionName w e :
  read_failure db collectionName = Some e ->
  getIndexes db collectionName w
  = (with_console w [(Error, FailedToGetIndexes collectionName (message e))],
     Returned []).
Proof.
  intros H. rewrite getIndexes_run. unfold read_failure in H.
  unfold read_report, inventory.
  destruct (db_collection db collectionName) as [e1|].
  - now injection H as ->.
  - destruct (db_indexes db collectionName) as [e1|found];
      [now injection H as -> | discriminate H].
Qed.

Lemma getIndexes_tolerates_failure_witness :
  getIndexes target_read_only "users" sample_world
  = (with_console sample_world
       [(Error, FailedToGetIndexes "users" "not authorized")],
     Returned []).
Proof.
  apply (getIndexes_tolerates_failure target_read_only "users" sample_world
           not_authorized).
  reflexivity.
Defined.

Lemma list_includes_In names name : list_includes names name = true <-> In name names.
Proof.
  unfold list_includes. rewrite existsb_exists. split.
  - intros (x & Hx & E). apply String.eqb_eq in E. now subst.
  - intros H. exists name. split; [exact H | apply String.eqb_refl].
Qed.

Lemma findMissing_filter sourceIndexes targetIndexes : forall missing total,
  findMissing sourceIndexes targetIndexes missing total
  = (missing ++ List.filter
                  (fun s => negb (existsb (areIndexesEquivalent s) targetIndexes))
                  (without_id sourceIndexes),
     (total + length (List.filter
                        (fun s => negb (existsb (areIndexesEquivalent s) targetIndexes))
                        (without_id sourceIndexes)))%nat).
Proof.
  unfold without_id.
  induction sourceIndexes as [|s rest IH]; intros missing total;
    cbn [findMissing List.filter].
  - now rewrite app_nil_r, Nat.add_0_r.
  - destruct (is_id_index s); cbn [negb List.filter]; [apply IH|].
    change (existsb (fun targetIndex => areIndexesEquivalent s targetIndex)
              targetIndexes)
      with (existsb (areIndexesEquivalent s) targetIndexes).
    destruct (existsb (areIndexesEquivalent s) targetIndexes); cbn [negb];
      [apply IH|].
    rewrite IH, <- app_assoc. cbn [length app]. f_equal. lia.
Qed.

(** One turn of the loop over the source collections. *)
Lemma compareCollections_cons sourceDb targetDb targetCollections name rest
    missingIndexes total w :
  exists w1 total1,
    compareCollections sourceDb targetDb targetCollections (name :: rest)
      missingIndexes total w
    = compareCollections sourceDb targetDb targetCollections rest
        (match entry_for (fun descriptors => descriptors)
                 (inventory sourceDb name)
                 (list_includes targetCollections name)
                 (inventory targetDb name) with
         | Some entry => assign name entry missingIndexes
         | None => missingIndexes
         end) total1 w1.
Proof.
  cbn [compareCollections]. unfold bind at 1, logger at 1.
  unfold bind at 1. rewrite getIndexes_run. unfold entry_for.
  destruct (list_includes targetCollections name); cbn [negb].
  - unfold bind at 1. rewrite getIndexes_run, findMissing_filter.
    cbn [fst snd app].
    destruct (List.filter _ (without_id (inventory sourceDb name)));
      eexists _, _; reflexivity.
  - unfold bind at 1, logger at 1. eexists _, _; reflexivity.
Qed.

Lemma assign_lookup name entry (object : gmap string planEntry) n :
  assign name entry object !! n
  = if String.eqb n "__proto__" then object !! n
    else if String.eqb n name then Some entry
    else object !! n.
Proof.
  unfold assign.
  destruct (String.eqb_spec name "__proto__") as [->|Hp].
  - destruct (String.eqb_spec n "__proto__"); reflexivity.
  - destruct (String.eqb_spec n "__proto__") as [->|Hn].
    + now rewrite lookup_insert_ne by congruence.
    + destruct (String.eqb_spec n name) as [->|Hne].
      * now rewrite lookup_insert_eq.
      * now rewrite lookup_insert_ne by congruence.
Qed.

(** The loop returns, and what it has added to [missingIndexes]: nothing
    under [__proto__], and under another name the entry of the last turn for
    that name that had one. *)
Lemma compareCollections_run sourceDb targetDb targetCollections sourceCollections :
  forall (missingIndexes : gmap string planEntry) total w,
  exists w' plan total',
    compareCollections sourceDb targetDb targetCollections sourceCollections
      missingIndexes total w = (w', Returned (plan, total')) /\
    forall name,
      plan !! name
      = if String.eqb name "__proto__" then missingIndexes !! name
        else match plan_with_target_as_read sourceCollections (inventory sourceDb)
                     targetCollections (inventory targetDb) name with
             | Some entry => Some entry
             | None => missingIndexes !! name
             end.
Proof.
  induction sourceCollections as [|n rest IH]; intros missingIndexes total w.
  - exists w, missingIndexes, total. split; [reflexivity|].
    intros name. now destruct (String.eqb name "__proto__").
  - destruct (compareCollections_cons sourceDb targetDb targetCollections n rest
                missingIndexes total w) as (w1 & total1 & ->).
    destruct (IH (match entry_for (fun descriptors => descriptors)
                          (inventory sourceDb n)
                          (list_includes targetCollections n)
                          (inventory targetDb n) with
                  | Some entry => assign n entry missingIndexes
                  | None => missingIndexes
                  end) total1 w1) as (w' & plan & total' & -> & Hplan).
    exists w', plan, total'. split; [reflexivity|].
    intros name. rewrite Hplan.
    assert (Hl : (match entry_for (fun descriptors => descriptors)
                          (inventory sourceDb n)
                          (list_includes targetCollections n)
                          (inventory targetDb n) with
                  | Some entry => assign n entry missingIndexes
                  | None => missingIndexes
                  end) !! name
                 = if String.eqb name "__proto__" then missingIndexes !! name
                   else if String.eqb name n
                        then match entry_for (fun descriptors => descriptors)
                                     (inventory sourceDb n)
                                     (list_includes targetCollections n)
                                     (inventory targetDb n) with
                             | Some entry => Some entry
                             | None => missingIndexes !! name
                             end
                        else missingIndexes !! name).
    { destruct (entry_for _ (inventory sourceDb n) _ _) as [entry|].
      - apply assign_lookup.
      - destruct (String.eqb name "__proto__"), (String.eqb name n); reflexivity. }
    rewrite Hl. clear Hl. destruct (String.eqb name "__proto__"); [reflexivity|].
    unfold plan_with_target_as_read, plan_of. cbn [list_includes existsb].
    fold (list_includes rest name).
    destruct (String.eqb_spec name n) as [->|Hne]; cbn [orb].
    + destruct (entry_for _ (inventory sourceDb n) _ _) as [entry|];
        destruct (list_includes rest n); reflexivity.
    + destruct (list_includes rest name); reflexivity.
Qed.

Lemma entry_for_without_id view sourceIndexes onTarget targetIndexes entry :
  entry_for view sourceIndexes onTarget targetIndexes = Some entry ->
  Forall (fun index => is_id_index index = false) (indexes entry).
Proof.
  unfold entry_for, without_id. intros H. apply List.Forall_forall. intros x Hx.
  destruct onTarget; cbn [negb] in H.
  - destruct (List.filter _ (List.filter _ sourceIndexes)) as [|y l] eqn:E;
      [discriminate H|]. injection H as <-. cbn [indexes] in Hx.
    rewrite <- E in Hx. apply filter_In in Hx as [Hx _].
    apply filter_In in Hx as [_ Hx]. now apply negb_true_iff in Hx.
  - injection H as <-. cbn [indexes] in Hx.
    apply filter_In in Hx as [_ Hx]. now apply negb_true_iff in Hx.
Qed.

Lemma entry_for_None sourceIndexes onTarget targetIndexes :
  entry_for (fun descriptors => descriptors) sourceIndexes onTarget targetIndexes
  = None <->
  onTarget = true /\
  forall s, In s sourceIndexes -> is_id_index s = false ->
    exists t, In t targetIndexes /\ areIndexesEquivalent s t = true.
Proof.
  unfold entry_for, without_id. destruct onTarget; cbn [negb].
  - split.
    + intros H. split; [reflexivity|]. intros s Hs Hid.
      destruct (List.filter _ (List.filter _ sourceIndexes)) as [|y l] eqn:E;
        [|discriminate H].
      destruct (existsb (areIndexesEquivalent s) targetIndexes) eqn:Ex.
      * apply existsb_exists in Ex. exact Ex.
      * exfalso. assert (Hin : In s []); [|exact Hin].
        rewrite <- E. apply filter_In. split; [|now rewrite Ex].
        apply filter_In. split; [exact Hs | now rewrite Hid].
    + intros [_ H].
      destruct (List.filter _ (List.filter _ sourceIndexes)) as [|y l] eqn:E;
        [reflexivity|]. exfalso.
      assert (Hy : In y (y :: l)) by now left. rewrite <- E in Hy.
      apply filter_In in Hy as [Hy Hn]. apply filter_In in Hy as [Hy Hid].
      apply negb_true_iff in Hid, Hn.
      destruct (H y Hy Hid) as (t & Ht & Et).
      assert (Ex : existsb (areIndexesEquivalent y) targetIndexes = true)
        by (apply existsb_exists; eauto).
      congruence.
  - split; [discriminate | intros [H _]; discriminate H].
Qed.

Lemma recordable_In names name :
  In name (recordable names) <-> In name names /\ name <> "__proto__".
Proof.
  unfold recordable. rewrite filter_In, negb_true_iff, String.eqb_neq. tauto.
Qed.

(** C1, as the code has it.  The loop over the source collections returns,
    for the collection names other than [__proto__], the plan of the
    specification with the target descriptors taken as they are read, the
    target's [_id_] descriptor included in the search for an equivalent: a
    source collection absent from the target names has an entry flagged
    [collectionMissing] that lists its descriptors not named [_id_]; a source
    collection present on the target has an entry listing, in source order,
    its descriptors not named [_id_] without an equivalent among the target
    descriptors of the collection, and no entry when there is none.  Nothing
    is recorded under the name [__proto__]; and the plan is empty exactly
    when the target is in sync for the source collections of another name. *)
Theorem compareCollections_plan sourceDb targetDb targetCollections
    sourceCollections w :
  exists w' plan total,
    compareCollections sourceDb targetDb targetCollections sourceCollections
      ∅ 0%nat w = (w', Returned (plan, total)) /\
    (forall name, name <> "__proto__" ->
       plan !! name
       = plan_with_target_as_read sourceCollections (inventory sourceDb)
           targetCollections (inventory targetDb) name) /\
    plan !! "__proto__" = None /\
    (plan = ∅ <->
     in_sync (recordable sourceCollections) (inventory sourceDb)
             targetCollections (inventory targetDb)).
Proof.
  destruct (compareCollections_run sourceDb targetDb targetCollections
              sourceCollections ∅ 0%nat w) as (w' & plan & total & R & P).
  assert (P' : forall name, name <> "__proto__" ->
             plan !! name
             = plan_with_target_as_read sourceCollections (inventory sourceDb)
                 targetCollections (inventory targetDb) name).
  { intros name Hp. rewrite P, lookup_empty.
    apply String.eqb_neq in Hp. rewrite Hp.
    now destruct (plan_with_target_as_read _ _ _ _ _). }
  assert (P0 : plan !! "__proto__" = None).
  { rewrite P. apply lookup_empty. }
  exists w', plan, total. split; [exact R|]. split; [exact P'|].
  split; [exact P0|].
  rewrite map_empty. unfold in_sync. split.
  - intros H name Hin. apply recordable_In in Hin as [Hin Hp].
    specialize (H name). rewrite (P' name Hp) in H.
    unfold plan_with_target_as_read, plan_of in H.
    apply list_includes_In in Hin. rewrite Hin in H.
    apply entry_for_None in H as [Ht H]. apply list_includes_In in Ht. auto.
  - intros H name. destruct (String.eqb_spec name "__proto__") as [->|Hp];
      [exact P0|].
    rewrite (P' name Hp). unfold plan_with_target_as_read, plan_of.
    destruct (list_includes sourceCollections name) eqn:Hin; [|reflexivity].
    apply list_includes_In in Hin.
    destruct (H name) as [Ht Hs]; [now apply recordable_In|].
    apply entry_for_None. split; [now apply list_includes_In | exact Hs].
Qed.

Lemma compareCollections_plan_witness :
  exists w' plan total,
    compareCollections sample_source sample_target ["users"] ["users"; "orders"]
      ∅ 0%nat sample_world = (w', Returned (plan, total)) /\
    plan !! "users"
    = Some {| collectionMissing := false; indexes := [index_email] |} /\
    plan !! "orders" = Some {| collectionMissing := true; indexes := [] |} /\
    plan !! "__proto__" = None /\
    plan <> ∅.
Proof.
  destruct (compareCollections_plan sample_source sample_target ["users"]
              ["users"; "orders"] sample_world)
    as (w' & plan & total & R & P & P0 & S).
  exists w', plan, total. split; [exact R|].
  split; [rewrite P by discriminate; reflexivity|].
  split; [rewrite P by discriminate; reflexivity|].
  split; [exact P0|].
  intros E. apply S in E. destruct (E "orders") as [[H|[]] _].
  - apply recordable_In. split; [right; now left | discriminate].
  - discriminate H.
Defined.

(** C1, counterexample: a source descriptor not named [_id_] that is
    equivalent to the target's [_id_] descriptor is not planned, while the
    plan of the specification, which sets the target's [_id_] descriptor
    aside first, lists it; and a source collection named [__proto__] that
    the target lacks is counted and has no entry, while the plan of the
    specification has one. *)
Lemma target_id_index_is_compared :
  (exists w' plan total,
     compareCollections source_indexed_by_id sample_target ["users"] ["users"]
       ∅ 0%nat sample_world = (w', Returned (plan, total)) /\
     plan !! "users" = None /\
     reference_plan ["users"] (inventory source_indexed_by_id)
       ["users"] (inventory sample_target) "users"
     = Some {| collectionMissing := false; indexes := [index_by_id] |}) /\
  (snd (compareCollections source_indexed_by_id sample_target [] ["__proto__"]
          ∅ 0%nat sample_world) = Returned (∅, 1%nat) /\
   reference_plan ["__proto__"] (inventory source_indexed_by_id)
     [] (inventory sample_target) "__proto__"
   = Some {| collectionMissing := true; indexes := [index_by_id] |}).
Proof.
  split.
  - destruct (compareCollections_run source_indexed_by_id sample_target ["users"]
                ["users"] ∅ 0%nat sample_world) as (w' & plan & total & R & P).
    exists w', plan, total. split; [exact R|].
    split; [rewrite P; reflexivity | reflexivity].
  - split; reflexivity.
Qed.

Lemma existsb_without_id (s : props) (targetIndexes : list props) :
  (forall t, In t targetIndexes -> is_id_index t = true ->
             areIndexesEquivalent s t = false) ->
  existsb (areIndexesEquivalent s) (without_id targetIndexes)
  = existsb (areIndexesEquivalent s) targetIndexes.
Proof.
  unfold without_id. induction targetIndexes as [|t rest IH]; intros H;
    [reflexivity|]. cbn [List.filter existsb].
  assert (Hrest : forall t', In t' rest -> is_id_index t' = true ->
                             areIndexesEquivalent s t' = false)
    by (intros t' Ht'; apply H; now right).
  destruct (is_id_index t) eqn:Hid; cbn [negb existsb].
  - rewrite (H t) by (auto; now left). now rewrite IH.
  - now rewrite IH.
Qed.

(** The two plans agree unless a source descriptor not named [_id_] is
    equivalent to a target descriptor named [_id_]. *)
Lemma reference_plan_agrees sourceCollections sourceIndexes targetCollections
    targetIndexes name :
  (forall s t, In s (sourceIndexes name) -> is_id_index s = false ->
     In t (targetIndexes name) -> is_id_index t = true ->
     areIndexesEquivalent s t = false) ->
  reference_plan sourceCollections sourceIndexes targetCollections targetIndexes name
  = plan_with_target_as_read sourceCollections sourceIndexes targetCollections
      targetIndexes name.
Proof.
  intros H. unfold reference_plan, plan_with_target_as_read, plan_of, entry_for.
  destruct (list_includes sourceCollections name); [|reflexivity].
  destruct (list_includes targetCollections name); [|reflexivity]. cbn [negb].
  assert (E : List.filter
                (fun s => negb (existsb (areIndexesEquivalent s)
                                  (without_id (targetIndexes name))))
                (without_id (sourceIndexes name))
              = List.filter
                  (fun s => negb (existsb (areIndexesEquivalent s)
                                    (targetIndexes name)))
                  (without_id (sourceIndexes name))).
  { apply filter_ext_in. intros s Hs. unfold without_id in Hs.
    apply filter_In in Hs as [Hs Hid]. apply negb_true_iff in Hid.
    rewrite existsb_without_id; [reflexivity|]. intros t Ht Htid. now apply H. }
  now rewrite E.
Qed.

(** C6. A descriptor named [_id_] is in no entry of the plan, and
    [createIndex] issues no create for it: given such a descriptor it returns
    without a call to the driver, and every call it makes to the driver is for
    a descriptor not named [_id_]. *)
Theorem id_index_never_planned_nor_created :
  (forall sourceDb targetDb targetCollections sourceCollections w,
     exists w' plan total,
       compareCollections sourceDb targetDb targetCollections sourceCollections
         ∅ 0%nat w = (w', Returned (plan, total)) /\
       forall name entry, plan !! name = Some entry ->
         Forall (fun index => is_id_index index = false) (indexes entry)) /\
  (forall db collectionName indexSpec w d,
     heap w !! indexSpec = Some d -> is_id_index d = true ->
     snd (createIndex db collectionName indexSpec w) = Returned tt /\
     requests (fst (createIndex db collectionName indexSpec w)) = requests w) /\
  (forall db collectionName indexSpec w d,
     heap w !! indexSpec = Some d ->
     requests (fst (createIndex db collectionName indexSpec w)) = requests w \/
     is_id_index d = false /\
     requests (fst (createIndex db collectionName indexSpec w))
     = requests w ++ [request_for collectionName d]).
Proof.
  split; [|split].
  - intros sourceDb targetDb targetCollections sourceCollections w.
    destruct (compareCollections_run sourceDb targetDb targetCollections
                sourceCollections ∅ 0%nat w) as (w' & plan & total & R & P).
    exists w', plan, total. split; [exact R|]. intros name entry H.
    rewrite P in H. rewrite !lookup_empty in H.
    destruct (String.eqb name "__proto__"); [discriminate H|].
    unfold plan_with_target_as_read, plan_of in H.
    destruct (list_includes sourceCollections name); [|discriminate H].
    destruct (entry_for _ _ _ _) as [entry'|] eqn:E; [|discriminate H].
    injection H as <-. eapply entry_for_without_id, E.
  - intros db collectionName indexSpec w d H Hid.
    rewrite (createIndex_run _ _ _ _ _ H), Hid.
    destruct (db_collection db collectionName); split; reflexivity.
  - intros db collectionName indexSpec w d H.
    rewrite (createIndex_run _ _ _ _ _ H).
    destruct (db_collection db collectionName); [now left|].
    destruct (is_id_index d); [now left|]. right. split; [reflexivity|].
    cbv zeta. destruct (db_createIndex _ _ _); reflexivity.
Qed.

Lemma id_index_never_planned_nor_created_witness :
  snd (createIndex sample_target "users" 6%positive sample_world) = Returned tt /\
  requests (fst (createIndex sample_target "users" 6%positive sample_world)) = [].
Proof.
  assert (H : heap sample_world !! 6%positive = Some index_id) by reflexivity.
  exact (proj1 (proj2 id_index_never_planned_nor_created)
           sample_target "users" 6%positive sample_world index_id H eq_refl).
Defined.

End Planner.

(** ** More on the comparator *)

Section ComparatorMore.
Import JSON.

Ltac case_field f :=
  match goal with
  | |- context [String.eqb ?k f] =>
      destruct (String.eqb_spec k f) as [<-|?]; try congruence
  end.

Lemma strict_eq_trans a b c :
  strict_eq a b = true -> strict_eq b c = true -> strict_eq a c = true.
Proof.
  destruct a, b; try discriminate; destruct c; try discriminate; simpl.
  - reflexivity.
  - reflexivity.
  - intros H1 H2. apply Bool.eqb_prop in H1, H2. subst. apply Bool.eqb_reflx.
  - intros H1 H2. apply Z.eqb_eq in H1, H2. subst. apply Z.eqb_refl.
  - intros H1 H2. apply String.eqb_eq in H1, H2. subst. apply String.eqb_refl.
  - intros H1 H2. apply Pos.eqb_eq in H1, H2. subst. apply Pos.eqb_refl.
  - intros H1 H2. apply Pos.eqb_eq in H1, H2. subst. apply Pos.eqb_refl.
Qed.

(** X1. The comparator is transitive: a descriptor equivalent to one that is
    equivalent to a third is equivalent to the third. *)
Theorem areIndexesEquivalent_trans a b c :
  areIndexesEquivalent a b = true -> areIndexesEquivalent b c = true ->
  areIndexesEquivalent a c = true.
Proof.
  rewrite !areIndexesEquivalent_iff, !is_text_index_json.
  intros (K1 & U1 & S1 & T1 & W1 & F1) (K2 & U2 & S2 & T2 & W2 & F2).
  repeat split; try congruence; eauto using strict_eq_trans.
  intros H. rewrite W1 by exact H. apply W2. now rewrite <- K1.
Qed.

Lemma areIndexesEquivalent_trans_witness :
  areIndexesEquivalent index_a_renamed index_a_collated = true.
Proof.
  apply (areIndexesEquivalent_trans index_a_renamed index_a index_a_collated);
    reflexivity.
Defined.

(** X2. The comparator reads six fields and nothing else: replacing either
    descriptor by one with the same [key], [unique], [sparse],
    [expireAfterSeconds], [weights] and [partialFilterExpression] does not
    change the answer, so [collation], [hidden] and every other option are
    ignored. *)
Theorem areIndexesEquivalent_reads_identity_fields a a' b b' :
  (forall f, In f identity_fields -> get f a = get f a') ->
  (forall f, In f identity_fields -> get f b = get f b') ->
  areIndexesEquivalent a b = areIndexesEquivalent a' b'.
Proof.
  intros Ha Hb. unfold areIndexesEquivalent, is_text_index.
  rewrite !(Ha "key"), !(Ha "unique"), !(Ha "sparse"), !(Ha "expireAfterSeconds"),
    !(Ha "weights"), !(Ha "partialFilterExpression"),
    !(Hb "key"), !(Hb "unique"), !(Hb "sparse"), !(Hb "expireAfterSeconds"),
    !(Hb "weights"), !(Hb "partialFilterExpression");
    try reflexivity; unfold identity_fields; simpl; tauto.
Qed.

Lemma areIndexesEquivalent_reads_identity_fields_witness :
  areIndexesEquivalent index_a index_a_collated
  = areIndexesEquivalent index_a index_a.
Proof.
  apply (areIndexesEquivalent_reads_identity_fields
           index_a index_a index_a_collated index_a).
  - reflexivity.
  - intros f Hf. unfold identity_fields in Hf. simpl in Hf.
    decompose [or] Hf; subst; try reflexivity; contradiction.
Defined.

Lemma no_filter_json v :
  no_filter v = true -> to_json (or_else v empty_object) = Some (JObj []).
Proof.
  unfold no_filter, or_else.
  destruct v as [ | | [] | n | s | id elems | id [|kv fields] | ]; simpl;
    try discriminate; try reflexivity.
  - destruct (Z.eqb n 0); [reflexivity|discriminate].
  - destruct (String.eqb s ""); [reflexivity|discriminate].
Qed.

Lemma get_delete_prop f g (o : props) :
  get f (delete_prop g o) = if String.eqb g f then VUndefined else get f o.
Proof. unfold get. rewrite lookup_delete_prop. now destruct (String.eqb g f). Qed.

Lemma areIndexesEquivalent_without_filter a b :
  no_filter (get "partialFilterExpression" a) = true ->
  areIndexesEquivalent a b
  = areIndexesEquivalent (delete_prop "partialFilterExpression" a) b.
Proof.
  intros Fa. apply eq_true_iff_eq.
  rewrite !areIndexesEquivalent_iff, !is_text_index_json, !get_delete_prop.
  simpl (String.eqb _ _). cbv iota.
  rewrite (no_filter_json _ Fa). reflexivity.
Qed.

(** X3. A [partialFilterExpression] that is falsy ([null], [undefined],
    [false], [0], [NaN], the empty string) or an object without fields
    counts as no filter: on either side of the comparison, a descriptor with
    such a filter compares as the same descriptor without the field. *)
Theorem empty_filter_is_no_filter a b :
  no_filter (get "partialFilterExpression" a) = true ->
  areIndexesEquivalent a b
  = areIndexesEquivalent (delete_prop "partialFilterExpression" a) b /\
  areIndexesEquivalent b a
  = areIndexesEquivalent b (delete_prop "partialFilterExpression" a).
Proof.
  intros Fa. split.
  - now apply areIndexesEquivalent_without_filter.
  - rewrite !(areIndexesEquivalent_sym b).
    now apply areIndexesEquivalent_without_filter.
Qed.

Lemma empty_filter_is_no_filter_witness :
  delete_prop "partialFilterExpression" index_a_null_filter = index_a /\
  areIndexesEquivalent index_a_null_filter index_a_read_again
  = areIndexesEquivalent index_a index_a_read_again /\
  areIndexesEquivalent index_a_read_again index_a_null_filter
  = areIndexesEquivalent index_a_read_again index_a /\
  areIndexesEquivalent index_a_empty_filter index_a_null_filter
  = areIndexesEquivalent index_a index_a_null_filter.
Proof.
  split; [reflexivity|].
  split; [|split].
  - apply (empty_filter_is_no_filter index_a_null_filter index_a_read_again).
    reflexivity.
  - apply (empty_filter_is_no_filter index_a_null_filter index_a_read_again).
    reflexivity.
  - apply (empty_filter_is_no_filter index_a_empty_filter index_a_null_filter).
    reflexivity.
Defined.

Lemma is_text_index_without_weights a :
  is_text_index (delete_prop "weights" a) = is_text_index a.
Proof. unfold is_text_index. now rewrite get_delete_prop. Qed.

(** X4. [weights] count only for a text index.  When the key pattern of the
    first descriptor has no "text" value, the answer is the same with the
    [weights] of both descriptors removed; when it has one, two descriptors
    whose [weights] are objects with number or string values and differ are
    not equivalent. *)
Theorem weights_count_for_text_indexes_only :
  (forall a b,
     is_text_index a = false ->
     areIndexesEquivalent a b
     = areIndexesEquivalent (delete_prop "weights" a) (delete_prop "weights" b)) /\
  (forall a b ida idb (wa wb : props),
     is_text_index a = true ->
     get "weights" a = VObj ida wa -> get "weights" b = VObj idb wb ->
     Forall (fun kv => is_kind (snd kv) = true) wa ->
     Forall (fun kv => is_kind (snd kv) = true) wb ->
     wa <> wb ->
     areIndexesEquivalent a b = false).
Proof.
  split.
  - intros a b Ht. apply eq_true_iff_eq.
    rewrite !areIndexesEquivalent_iff, is_text_index_without_weights, Ht,
      !get_delete_prop.
    simpl (String.eqb _ _). cbv iota. intuition congruence.
  - intros a b ida idb wa wb Ht Ha Hb Ka Kb Hne.
    apply not_true_is_false. intros H.
    apply areIndexesEquivalent_iff in H as (_ & _ & _ & _ & H & _).
    specialize (H Ht). rewrite Ha, Hb in H. cbn [or_else truthy to_json] in H.
    injection H as H. apply Hne. now apply kinds_to_json_inj.
Qed.

Lemma weights_count_for_text_indexes_only_witness :
  delete_prop "weights" index_a_weighted = index_a /\
  areIndexesEquivalent index_a_read_again index_a_weighted
  = areIndexesEquivalent index_a_read_again index_a /\
  areIndexesEquivalent index_title_1 index_title_5 = false.
Proof.
  split; [reflexivity|split].
  - apply (proj1 weights_count_for_text_indexes_only index_a_read_again
             index_a_weighted).
    reflexivity.
  - apply (proj2 weights_count_for_text_indexes_only index_title_1 index_title_5
             45%positive 46%positive [("title", VNum 1)] [("title", VNum 5)]);
      try reflexivity.
    + repeat constructor.
    + repeat constructor.
    + discriminate.
Defined.

End ComparatorMore.

(** ** More on the planner *)

Section PlannerMore.

Lemma with_console_app w l1 l2 :
  with_console (with_console w l1) l2 = with_console w (l1 ++ l2).
Proof. unfold with_console. cbn [heap requests console]. now rewrite app_assoc. Qed.

Lemma with_console_nil w : with_console w [] = w.
Proof. destruct w. unfold with_console. cbn. now rewrite app_nil_r. Qed.

(** One turn of the loop, with its lines and its count. *)
Lemma compareCollections_turn sourceDb targetDb targetCollections name rest
    (missingIndexes : gmap string planEntry) total w :
  compareCollections sourceDb targetDb targetCollections (name :: rest)
    missingIndexes total w
  = compareCollections sourceDb targetDb targetCollections rest
      (match turn_entry sourceDb targetDb targetCollections name with
       | Some entry => assign name entry missingIndexes
       | None => missingIndexes
       end)
      (total + entry_count (turn_entry sourceDb targetDb targetCollections name))
      (with_console w (compare_lines sourceDb targetDb targetCollections name)).
Proof.
  cbn [compareCollections]. unfold bind at 1, logger at 1.
  unfold bind at 1. rewrite getIndexes_run.
  unfold turn_entry, entry_for, compare_lines.
  destruct (list_includes targetCollections name); cbn [negb].
  - unfold bind at 1. rewrite getIndexes_run, findMissing_filter.
    cbn [fst snd app].
    fold (with_console w [(Info, ComparingIndexes name)]).
    rewrite !with_console_app. cbn [app].
    destruct (List.filter _ (without_id (inventory sourceDb name)));
      cbn [length Nat.ltb Nat.leb entry_count indexes]; rewrite ?Nat.add_0_r;
      reflexivity.
  - unfold bind at 1, logger at 1.
    fold (with_console w [(Info, ComparingIndexes name)]).
    fold (with_console
            (with_console (with_console w [(Info, ComparingIndexes name)])
               [read_report sourceDb name])
            [(Warning, CollectionNotInTarget name)]).
    rewrite !with_console_app. reflexivity.
Qed.

(** A run of the loop only logs; its count is the number of descriptors the
    turns have listed. *)
Lemma compareCollections_trace sourceDb targetDb targetCollections
    sourceCollections :
  forall (missingIndexes : gmap string planEntry) total w,
  exists plan,
    compareCollections sourceDb targetDb targetCollections sourceCollections
      missingIndexes total w
    = (with_console w
         (List.flat_map (compare_lines sourceDb targetDb targetCollections)
            sourceCollections),
       Returned
         (plan,
          (total + list_sum
                     (List.map (fun name =>
                        entry_count
                          (turn_entry sourceDb targetDb targetCollections name))
                        sourceCollections))%nat)).
Proof.
  induction sourceCollections as [|n rest IH]; intros missingIndexes total w.
  - exists missingIndexes. cbn [compareCollections List.flat_map List.map list_sum fold_right].
    unfold ret. now rewrite with_console_nil, Nat.add_0_r.
  - rewrite compareCollections_turn.
    destruct (IH (match turn_entry sourceDb targetDb targetCollections n with
                  | Some entry => assign n entry missingIndexes
                  | None => missingIndexes
                  end)
                 (total + entry_count
                            (turn_entry sourceDb targetDb targetCollections n))%nat
                 (with_console w
                    (compare_lines sourceDb targetDb targetCollections n)))
      as [plan ->].
    exists plan. rewrite with_console_app.
    cbn [List.flat_map List.map list_sum fold_right]. now rewrite Nat.add_assoc.
Qed.

Lemma compareCollections_full sourceDb targetDb targetCollections
    sourceCollections (missingIndexes : gmap string planEntry) total w :
  exists plan,
    compareCollections sourceDb targetDb targetCollections sourceCollections
      missingIndexes total w
    = (with_console w
         (List.flat_map (compare_lines sourceDb targetDb targetCollections)
            sourceCollections),
       Returned
         (plan,
          (total + list_sum
                     (List.map (fun name =>
                        entry_count
                          (turn_entry sourceDb targetDb targetCollections name))
                        sourceCollections))%nat)) /\
    forall name,
      plan !! name
      = if String.eqb name "__proto__" then missingIndexes !! name
        else match plan_with_target_as_read sourceCollections (inventory sourceDb)
                     targetCollections (inventory targetDb) name with
             | Some entry => Some entry
             | None => missingIndexes !! name
             end.
Proof.
  destruct (compareCollections_trace sourceDb targetDb targetCollections
              sourceCollections missingIndexes total w) as [plan T].
  destruct (compareCollections_run sourceDb targetDb targetCollections
              sourceCollections missingIndexes total w)
    as (w' & plan' & total' & R & P).
  exists plan. split; [exact T|].
  rewrite T in R. injection R as _ <- _. exact P.
Qed.

Lemma plan_lookup_turn sourceDb targetDb targetCollections sourceCollections name :
  plan_with_target_as_read sourceCollections (inventory sourceDb)
    targetCollections (inventory targetDb) name
  = if list_includes sourceCollections name
    then turn_entry sourceDb targetDb targetCollections name
    else None.
Proof. reflexivity. Qed.

(** The plan of a run that starts from the empty object. *)
Lemma compareCollections_from_empty sourceDb targetDb targetCollections
    sourceCollections w :
  exists plan,
    compareCollections sourceDb targetDb targetCollections sourceCollections
      ∅ 0%nat w
    = (with_console w
         (List.flat_map (compare_lines sourceDb targetDb targetCollections)
            sourceCollections),
       Returned
         (plan,
          list_sum
            (List.map (fun name =>
               entry_count (turn_entry sourceDb targetDb targetCollections name))
               sourceCollections))) /\
    forall name,
      plan !! name
      = if String.eqb name "__proto__" then None
        else if list_includes sourceCollections name
             then turn_entry sourceDb targetDb targetCollections name
             else None.
Proof.
  destruct (compareCollections_full sourceDb targetDb targetCollections
              sourceCollections ∅ 0%nat w) as (plan & R & P).
  exists plan. split; [exact R|]. intros name.
  rewrite P, plan_lookup_turn, !lookup_empty.
  destruct (String.eqb name "__proto__"); [reflexivity|].
  destruct (list_includes sourceCollections name); [|reflexivity].
  now destruct (turn_entry _ _ _ name).
Qed.

Lemma not_proto name : name <> "__proto__" -> String.eqb name "__proto__" = false.
Proof. apply String.eqb_neq. Qed.

(** X5. Planning writes nothing: a run of the loop of [compareIndexes]
    returns, sends no create to the driver and leaves the heap as it was;
    all it does is log, for each source collection in turn, the "comparing"
    line, the result of the source read and either the result of the target
    read or the "not in target" warning. *)
Theorem compareCollections_only_logs sourceDb targetDb targetCollections
    sourceCollections missingIndexes total w :
  exists w' result,
    compareCollections sourceDb targetDb targetCollections sourceCollections
      missingIndexes total w = (w', Returned result) /\
    heap w' = heap w /\
    requests w' = requests w /\
    console w'
    = console w
      ++ List.flat_map (compare_lines sourceDb targetDb targetCollections)
           sourceCollections.
Proof.
  destruct (compareCollections_trace sourceDb targetDb targetCollections
              sourceCollections missingIndexes total w) as [plan ->].
  eexists _, _. split; [reflexivity|]. repeat split.
Qed.

Lemma list_sum_zero (l : list nat) : list_sum l = 0%nat <-> Forall (eq 0%nat) l.
Proof.
  induction l as [|x l IH]; cbn [list_sum fold_right].
  - split; [constructor|reflexivity].
  - split.
    + intros H. constructor; [lia|]. apply IH. unfold list_sum. lia.
    + intros H. inversion H as [|? ? Hx Hl]; subst. apply IH in Hl.
      unfold list_sum in Hl. lia.
Qed.

(** X6. The count returned with the plan is the number of descriptors the
    turns of the loop have listed, a collection named twice counting twice;
    and when no source collection is named [__proto__] it is zero exactly
    when no entry of the plan lists a descriptor (entries for collections
    missing on the target may still be there). *)
Theorem compareCollections_count sourceDb targetDb targetCollections
    sourceCollections w :
  exists w' plan total,
    compareCollections sourceDb targetDb targetCollections sourceCollections
      ∅ 0%nat w = (w', Returned (plan, total)) /\
    total = list_sum
              (List.map (fun name =>
                 entry_count (turn_entry sourceDb targetDb targetCollections name))
                 sourceCollections) /\
    (~ In "__proto__" sourceCollections ->
     (total = 0%nat <->
      forall name entry, plan !! name = Some entry -> indexes entry = [])).
Proof.
  destruct (compareCollections_from_empty sourceDb targetDb targetCollections
              sourceCollections w) as (plan & R & P).
  eexists _, plan, _. split; [exact R|]. split; [reflexivity|].
  intros Hp. rewrite list_sum_zero, List.Forall_forall. split.
  - intros H name entry Hl. rewrite P in Hl.
    destruct (String.eqb name "__proto__"); [discriminate Hl|].
    destruct (list_includes sourceCollections name) eqn:Hin; [|discriminate Hl].
    apply list_includes_In in Hin.
    assert (Hc : 0%nat = entry_count
                           (turn_entry sourceDb targetDb targetCollections name)).
    { apply H. apply in_map_iff. exists name. split; [reflexivity|exact Hin]. }
    rewrite Hl in Hc. cbn [entry_count] in Hc.
    destruct (indexes entry); [reflexivity|discriminate Hc].
  - intros H x Hx. apply in_map_iff in Hx as (name & <- & Hin).
    assert (Hn : name <> "__proto__") by (intros ->; auto).
    apply list_includes_In in Hin.
    specialize (H name). rewrite P, (not_proto _ Hn), Hin in H.
    destruct (turn_entry _ _ _ name) as [e|]; [|reflexivity].
    cbn [entry_count]. now rewrite (H e).
Qed.

Lemma compareCollections_count_witness :
  exists w' plan total,
    compareCollections sample_source sample_target ["users"] ["users"; "orders"]
      ∅ 0%nat sample_world = (w', Returned (plan, total)) /\
    total = 1%nat /\
    ~ (forall name entry, plan !! name = Some entry -> indexes entry = []).
Proof.
  destruct (compareCollections_count sample_source sample_target ["users"]
              ["users"; "orders"] sample_world) as (w' & plan & total & R & T & Z).
  assert (Hp : ~ In "__proto__" ["users"; "orders"]).
  { intros [H|[H|[]]]; discriminate H. }
  assert (T1 : total = 1%nat) by (rewrite T; reflexivity).
  exists w', plan, total. split; [exact R|]. split; [exact T1|].
  intros H. apply (proj2 (Z Hp)) in H. rewrite T1 in H. discriminate H.
Defined.

(** X7. When a collection, of a name other than [__proto__], is listed on
    the target but its indexes cannot be read there, every source descriptor
    of the collection not named [_id_] is planned as missing. *)
Theorem target_read_failure_plans_all sourceDb targetDb targetCollections
    sourceCollections w name e :
  name <> "__proto__" ->
  In name sourceCollections -> In name targetCollections ->
  read_failure targetDb name = Some e ->
  exists w' plan total,
    compareCollections sourceDb targetDb targetCollections sourceCollections
      ∅ 0%nat w = (w', Returned (plan, total)) /\
    plan !! name
    = match without_id (inventory sourceDb name) with
      | [] => None
      | missing => Some {| collectionMissing := false; indexes := missing |}
      end.
Proof.
  intros Hp Hs Ht He.
  destruct (compareCollections_from_empty sourceDb targetDb targetCollections
              sourceCollections w) as (plan & R & P).
  eexists _, plan, _. split; [exact R|].
  rewrite P, (not_proto _ Hp).
  apply list_includes_In in Hs, Ht. rewrite Hs.
  unfold turn_entry, entry_for. rewrite Ht. cbn [negb].
  assert (Hi : inventory targetDb name = []).
  { unfold read_failure in He. unfold inventory.
    destruct (db_collection targetDb name); [reflexivity|].
    destruct (db_indexes targetDb name); [reflexivity|discriminate He]. }
  rewrite Hi. cbn [existsb negb].
  assert (Hf : forall l : list props, List.filter (fun _ => true) l = l)
    by (induction l as [|x l IH]; cbn; congruence).
  rewrite Hf. now destruct (without_id (inventory sourceDb name)).
Qed.

Lemma target_read_failure_plans_all_witness :
  exists w' plan total,
    compareCollections sample_source sample_target_unreadable ["users"] ["users"]
      ∅ 0%nat sample_world = (w', Returned (plan, total)) /\
    plan !! "users"
    = Some {| collectionMissing := false; indexes := [index_email] |}.
Proof.
  assert (Hs : In "users" ["users"]) by now left.
  assert (Hp : "users" <> "__proto__") by discriminate.
  exact (target_read_failure_plans_all sample_source sample_target_unreadable
           ["users"] ["users"] sample_world "users"
           {| code := VNum 13; message := "not authorized" |} Hp Hs Hs eq_refl).
Defined.

(** X8. When the indexes of a source collection, of a name other than
    [__proto__], cannot be read, the failure does not reach the plan: the
    collection has no entry if it is on the target, and an entry flagged
    [collectionMissing] with no descriptor if it is not. *)
Theorem source_read_failure_plans_nothing sourceDb targetDb targetCollections
    sourceCollections w name e :
  name <> "__proto__" ->
  In name sourceCollections ->
  read_failure sourceDb name = Some e ->
  exists w' plan total,
    compareCollections sourceDb targetDb targetCollections sourceCollections
      ∅ 0%nat w = (w', Returned (plan, total)) /\
    plan !! name
    = if list_includes targetCollections name then None
      else Some {| collectionMissing := true; indexes := [] |}.
Proof.
  intros Hp Hs He.
  destruct (compareCollections_from_empty sourceDb targetDb targetCollections
              sourceCollections w) as (plan & R & P).
  eexists _, plan, _. split; [exact R|].
  rewrite P, (not_proto _ Hp).
  apply list_includes_In in Hs. rewrite Hs.
  assert (Hi : inventory sourceDb name = []).
  { unfold read_failure in He. unfold inventory.
    destruct (db_collection sourceDb name); [reflexivity|].
    destruct (db_indexes sourceDb name); [reflexivity|discriminate He]. }
  unfold turn_entry, entry_for. rewrite Hi.
  now destruct (list_includes targetCollections name).
Qed.

Lemma source_read_failure_plans_nothing_witness :
  exists w' plan total,
    compareCollections sample_target_unreadable sample_target ["users"]
      ["users"; "orders"] ∅ 0%nat sample_world = (w', Returned (plan, total)) /\
    plan !! "users" = None /\
    plan !! "orders" = Some {| collectionMissing := true; indexes := [] |}.
Proof.
  assert (H1 : In "users" ["users"; "orders"]) by now left.
  assert (H2 : In "orders" ["users"; "orders"]) by (right; now left).
  assert (N1 : "users" <> "__proto__") by discriminate.
  assert (N2 : "orders" <> "__proto__") by discriminate.
  destruct (source_read_failure_plans_nothing sample_target_unreadable
              sample_target ["users"] ["users"; "orders"] sample_world "users"
              {| code := VNum 13; message := "not authorized" |} N1 H1 eq_refl)
    as (w' & plan & total & R & P).
  destruct (source_read_failure_plans_nothing sample_target_unreadable
              sample_target ["users"] ["users"; "orders"] sample_world "orders"
              {| code := VNum 13; message := "not authorized" |} N2 H2 eq_refl)
    as (w2 & plan2 & total2 & R2 & P2).
  rewrite R in R2. injection R2 as <- <- <-.
  exists w', plan, total. split; [exact R|]. split; [exact P|exact P2].
Defined.

(** X9. The plan depends on which source collections are named, not on the
    order in which they are named nor on how many times. *)
Theorem plan_ignores_order_and_repeats sourceDb targetDb targetCollections
    names1 names2 w1 w2 :
  (forall name, In name names1 <-> In name names2) ->
  exists w1' w2' plan total1 total2,
    compareCollections sourceDb targetDb targetCollections names1 ∅ 0%nat w1
    = (w1', Returned (plan, total1)) /\
    compareCollections sourceDb targetDb targetCollections names2 ∅ 0%nat w2
    = (w2', Returned (plan, total2)).
Proof.
  intros H.
  destruct (compareCollections_from_empty sourceDb targetDb targetCollections
              names1 w1) as (plan1 & R1 & P1).
  destruct (compareCollections_from_empty sourceDb targetDb targetCollections
              names2 w2) as (plan2 & R2 & P2).
  assert (E : plan2 = plan1).
  { apply map_eq. intros name. rewrite P1, P2.
    assert (Hi : list_includes names1 name = list_includes names2 name).
    { apply eq_true_iff_eq. rewrite !list_includes_In. apply H. }
    now rewrite Hi. }
  subst plan2. eexists _, _, plan1, _, _. split; [exact R1|exact R2].
Qed.

Lemma plan_ignores_order_and_repeats_witness :
  exists w1' w2' plan total1 total2,
    compareCollections sample_source sample_target ["users"]
      ["users"; "orders"] ∅ 0%nat sample_world = (w1', Returned (plan, total1)) /\
    compareCollections sample_source sample_target ["users"]
      ["orders"; "users"; "users"] ∅ 0%nat sample_world
    = (w2', Returned (plan, total2)).
Proof.
  apply (plan_ignores_order_and_repeats sample_source sample_target ["users"]
           ["users"; "orders"] ["orders"; "users"; "users"]).
  intros name. simpl. tauto.
Defined.



End PlannerMore.

(** ** More on the applier *)

Section ApplierMore.

Lemma createIndex_requests db collectionName indexSpec w d :
  heap w !! indexSpec = Some d ->
  db_collection db collectionName = None ->
  exists w',
    createIndex db collectionName indexSpec w = (w', Returned tt) /\
    requests w' = requests w ++ List.map (request_for collectionName) (without_id [d]).
Proof.
  intros H Hc. rewrite (createIndex_run _ _ _ _ _ H), Hc.
  unfold without_id. cbn [List.filter].
  destruct (is_id_index d); cbn [negb List.map].
  - eexists. split; [reflexivity|]. cbn [with_console requests]. now rewrite app_nil_r.
  - cbv zeta. destruct (db_createIndex _ _ _); eexists; split; reflexivity.
Qed.

(** X11. When [db.collection] does not throw, the loop over the descriptors
    of a collection sends the driver one create for each descriptor not named
    [_id_], in order, each with the key and the forwarded options of its
    descriptor, whatever the driver replies to the earlier ones; and no
    object of the heap is changed. *)
Theorem createEachIndex_requests db collectionName :
  forall (indexSpecs : list positive) (descriptors : list props) w,
  Forall2 (fun indexSpec d => heap w !! indexSpec = Some d) indexSpecs descriptors ->
  db_collection db collectionName = None ->
  exists w',
    createEachIndex db collectionName indexSpecs w = (w', Returned tt) /\
    requests w'
    = requests w ++ List.map (request_for collectionName) (without_id descriptors) /\
    (forall ref o, heap w !! ref = Some o -> heap w' !! ref = Some o).
Proof.
  induction indexSpecs as [|indexSpec rest IH]; intros descriptors w H Hc.
  - inversion H; subst. exists w. cbn. rewrite app_nil_r. auto.
  - inversion H as [|? d ? ds Hd Hrest]; subst.
    destruct (createIndex_requests db collectionName indexSpec w d Hd Hc)
      as (w1 & R & Q).
    assert (F : forall ref o, heap w !! ref = Some o -> heap w1 !! ref = Some o).
    { intros ref o Ho.
      replace w1 with (fst (createIndex db collectionName indexSpec w))
        by now rewrite R.
      now apply createIndex_frame. }
    destruct (IH ds w1) as (w' & R' & Q' & F'); [|exact Hc|].
    { eapply Forall2_impl; [exact Hrest|]. intros ref o Ho. now apply F. }
    exists w'. split; [|split].
    + cbn [createEachIndex]. unfold bind. now rewrite R.
    + rewrite Q', Q, <- app_assoc, <- map_app. do 2 f_equal.
      unfold without_id. cbn [List.filter].
      now destruct (negb (is_id_index d)).
    + intros ref o Ho. apply F', F, Ho.
Qed.

Lemma createEachIndex_requests_witness :
  exists w',
    createEachIndex target_read_only "users" [6%positive; 5%positive; 5%positive]
      sample_world = (w', Returned tt) /\
    requests w'
    = [request_for "users" index_email; request_for "users" index_email].
Proof.
  destruct (createEachIndex_requests target_read_only "users"
              [6%positive; 5%positive; 5%positive]
              [index_id; index_email; index_email] sample_world)
    as (w' & R & Q & _).
  - repeat constructor.
  - reflexivity.
  - exists w'. split; [exact R|exact Q].
Defined.

Lemma createEachIndex_attempted db collectionName :
  forall (indexSpecs : list positive) (descriptors : list props) w,
  Forall2 (fun indexSpec d => heap w !! indexSpec = Some d) indexSpecs descriptors ->
  exists w',
    createEachIndex db collectionName indexSpecs w = (w', Returned tt) /\
    requests w' = requests w ++ attempted db collectionName descriptors.
Proof.
  unfold attempted.
  destruct (db_collection db collectionName) as [e|] eqn:Hc.
  - induction indexSpecs as [|indexSpec rest IH]; intros descriptors w H.
    + exists w. cbn. now rewrite app_nil_r.
    + inversion H as [|? d ? ds Hd Hrest]; subst.
      pose proof (createIndex_run db collectionName indexSpec w d Hd) as R.
      rewrite Hc in R.
      destruct (IH ds (with_console w [failure_report e d collectionName]))
        as (w' & R' & Q'); [exact Hrest|].
      exists w'. split; [|exact Q'].
      cbn [createEachIndex]. unfold bind. now rewrite R.
  - intros indexSpecs descriptors w H.
    destruct (createEachIndex_requests db collectionName indexSpecs descriptors
                w H Hc) as (w' & R & Q & _).
    eauto.
Qed.

Lemma createEachIndex_requests_frame db collectionName :
  forall (indexSpecs : list positive) w w',
  createEachIndex db collectionName indexSpecs w = (w', Returned tt) ->
  forall ref o, heap w !! ref = Some o -> heap w' !! ref = Some o.
Proof.
  induction indexSpecs as [|indexSpec rest IH]; intros w w' R ref o Ho.
  - cbn in R. injection R as <-. auto.
  - cbn [createEachIndex] in R. unfold bind in R.
    destruct (createIndex db collectionName indexSpec w) as [w1 [[]|e]] eqn:R1;
      [|discriminate R].
    apply (IH w1 w' R). replace w1 with (fst (createIndex db collectionName indexSpec w))
      by now rewrite R1.
    now apply createIndex_frame.
Qed.

(** The objects of an array are placed in fresh cells of the heap. *)
Lemma allocate_run (objects : list props) : forall w,
  exists w' refs,
    allocate objects w = (w', Returned refs) /\
    Forall2 (fun ref o => heap w' !! ref = Some o) refs objects /\
    requests w' = requests w /\
    console w' = console w /\
    (forall ref o, heap w !! ref = Some o -> heap w' !! ref = Some o).
Proof.
  induction objects as [|o rest IH]; intros w.
  - exists w, []. cbn. repeat split; auto.
  - cbn [allocate]. unfold bind at 1. unfold alloc.
    set (w1 := {| heap := <[fresh (dom (heap w)) := o]> (heap w);
                  requests := requests w; console := console w |}).
    destruct (IH w1) as (w' & refs & R & A & Q & C & F).
    exists w', (fresh (dom (heap w)) :: refs).
    unfold bind, ret. rewrite R. repeat split; auto.
    + constructor; [|exact A]. apply F. subst w1. cbn [heap].
      apply lookup_insert_eq.
    + intros ref x Hx. apply F. subst w1. cbn [heap].
      rewrite lookup_insert_ne; [exact Hx|]. now apply fresh_ref_differs with x.
Qed.

End ApplierMore.

(** ** The commands *)

Section Commands.

Lemma lift_run {A} (c : M A) s w o :
  c (under s) = (w, o) ->
  lift c s = ({| under := w; created := created s; notes := notes s |}, o).
Proof. intros H. unfold lift. now rewrite H. Qed.

Lemma getCollections_run db specifiedCollections s :
  getCollections db specifiedCollections s
  = match collections_of db specifiedCollections with
    | inr names => (s, Returned names)
    | inl e =>
        ({| under := under s; created := created s;
            notes := notes s
                     ++ [(length (console (under s)),
                          (Error, FailedToGetCollections (message e)))] |},
         Thrown e)
    end.
Proof.
  unfold getCollections, collections_of, try_catchS.
  destruct (specified specifiedCollections); [reflexivity|].
  destruct (server_listCollections db); reflexivity.
Qed.

(** X12. [getCollections] returns a non-empty list of names as it is given,
    without a look at the database and without a check that the collections
    exist; with no list, or an empty one, it returns the names of the
    collections the database lists, and when the listing fails it logs the
    failure and throws the same error again. *)
Theorem getCollections_result db specifiedCollections s :
  (specified specifiedCollections = true ->
   getCollections db specifiedCollections s
   = (s, Returned (default [] specifiedCollections))) /\
  (specified specifiedCollections = false ->
   forall collections, server_listCollections db = inr collections ->
   getCollections db specifiedCollections s
   = (s, Returned (List.map info_name collections))) /\
  (specified specifiedCollections = false ->
   forall e, server_listCollections db = inl e ->
   getCollections db specifiedCollections s
   = ({| under := under s; created := created s;
         notes := notes s
                  ++ [(length (console (under s)),
                       (Error, FailedToGetCollections (message e)))] |},
      Thrown e)).
Proof.
  rewrite getCollections_run. unfold collections_of.
  split; [|split]; intros H; rewrite H; [reflexivity| |];
    intros x Hx; now rewrite Hx.
Qed.

Lemma getCollections_result_witness :
  getCollections unreachable_server (Some ["users"]) sample_session
  = (sample_session, Returned ["users"]) /\
  getCollections sample_source_server (Some []) sample_session
  = (sample_session, Returned ["users"; "orders"]) /\
  getCollections unreachable_server None sample_session
  = ({| under := sample_world; created := [];
        notes := [(0%nat, (Error, FailedToGetCollections "not authorized"))] |},
     Thrown not_authorized).
Proof.
  split; [|split].
  - apply (proj1 (getCollections_result unreachable_server (Some ["users"])
                    sample_session)). reflexivity.
  - apply (proj1 (proj2 (getCollections_result sample_source_server (Some [])
                           sample_session)) eq_refl
             [{| info_name := "users"; info_type := "collection" |};
              {| info_name := "orders"; info_type := "collection" |}]).
    reflexivity.
  - apply (proj2 (proj2 (getCollections_result unreachable_server None
                           sample_session)) eq_refl not_authorized).
    reflexivity.
Defined.

(** The block that creates a missing collection leaves the world as it is. *)
Lemma createCollectionIfMissing_run targetDb collectionName s :
  exists s',
    createCollectionIfMissing targetDb collectionName s
    = (s', match ensure_failure targetDb (requests (under s)) (created s)
                   collectionName with
           | Some e => Thrown e
           | None => Returned tt
           end) /\
    under s' = under s /\
    created s'
    = created s ++ ensure_calls targetDb (requests (under s)) (created s)
                     collectionName /\
    List.map snd (notes s')
    = List.map snd (notes s)
      ++ match ensure_failure targetDb (requests (under s)) (created s)
                 collectionName with
         | Some _ => []
         | None =>
             List.map (fun name => (Info, CreatedCollection name))
               (ensure_calls targetDb (requests (under s)) (created s)
                  collectionName)
         end.
Proof.
  unfold createCollectionIfMissing, ensure_failure, ensure_calls, bindS,
    hasCollection, createCollection, noteS, retS.
  destruct (server_hasCollection targetDb _ _ collectionName) as [e|[|]];
    cbn [negb].
  - eexists. split; [reflexivity|]. now rewrite !app_nil_r.
  - eexists. split; [reflexivity|]. now rewrite !app_nil_r.
  - destruct (server_createCollection targetDb _ _ collectionName);
      eexists; (split; [reflexivity|]); cbn [under created notes];
      rewrite ?map_app, ?app_nil_r; repeat split.
Qed.

Lemma bindS_returned {A B} (c : S A) (k : A -> S B) s s1 a :
  c s = (s1, Returned a) -> bindS c k s = k a s1.
Proof. intros H. unfold bindS. now rewrite H. Qed.

Lemma bindS_thrown {A B} (c : S A) (k : A -> S B) s s1 e :
  c s = (s1, Thrown e) -> bindS c k s = (s1, Thrown e).
Proof. intros H. unfold bindS. now rewrite H. Qed.

Lemma Forall2_is_Some (refs : list positive) (objects : list props) (w : world) :
  Forall2 (fun ref o => heap w !! ref = Some o) refs objects ->
  Forall (fun ref => is_Some (heap w !! ref)) refs.
Proof. induction 1; constructor; eauto. Qed.

(** The start of a migration: the line, the read and the descriptors. *)
Lemma migrate_prefix {B} sourceDb collectionName (K : list positive -> S B) s :
  exists w3 refs,
    (noteS Info (MigratingIndexes collectionName) ~;;
     indexes <~ lift (getIndexes (handle sourceDb) collectionName) ;;
     refs <~ lift (allocate indexes) ;;
     K refs) s
    = K refs {| under := w3; created := created s;
                notes := notes s ++ [(length (console (under s)),
                                      (Info, MigratingIndexes collectionName))] |} /\
    Forall2 (fun ref o => heap w3 !! ref = Some o) refs
            (inventory (handle sourceDb) collectionName) /\
    requests w3 = requests (under s) /\
    (forall ref o, heap (under s) !! ref = Some o -> heap w3 !! ref = Some o).
Proof.
  unfold bindS, noteS, lift. cbn [under created notes].
  rewrite getIndexes_run. cbn [under created notes].
  destruct (allocate_run (inventory (handle sourceDb) collectionName)
              (with_console (under s)
                 [read_report (handle sourceDb) collectionName]))
    as (w3 & refs & RA & HA & QA & CA & FA).
  rewrite RA. exists w3, refs. split; [reflexivity|]. repeat split; auto.
Qed.

(** What a migration of one collection does. *)
Lemma migrateCollectionIndexes_run sourceDb targetDb collectionName s :
  exists s',
    migrateCollectionIndexes sourceDb targetDb collectionName s
    = (s', Returned tt) /\
    created s'
    = created s ++ ensure_calls targetDb (requests (under s)) (created s)
                     collectionName /\
    (forall ref o, heap (under s) !! ref = Some o ->
                   heap (under s') !! ref = Some o) /\
    match ensure_failure targetDb (requests (under s)) (created s)
            collectionName with
    | Some e =>
        requests (under s') = requests (under s) /\
        List.map snd (notes s')
        = List.map snd (notes s)
          ++ [(Info, MigratingIndexes collectionName);
              (Error, MigrationError collectionName (message e))]
    | None =>
        requests (under s')
        = requests (under s)
          ++ attempted (handle targetDb) collectionName
               (inventory (handle sourceDb) collectionName) /\
        List.map snd (notes s')
        = List.map snd (notes s)
          ++ [(Info, MigratingIndexes collectionName)]
          ++ List.map (fun name => (Info, CreatedCollection name))
               (ensure_calls targetDb (requests (under s)) (created s)
                  collectionName)
          ++ [(Success, CompletedMigration collectionName)]
    end.
Proof.
  unfold migrateCollectionIndexes, try_catchS.
  destruct (migrate_prefix sourceDb collectionName
              (fun refs =>
                 createCollectionIfMissing targetDb collectionName ~;;
                 lift (createEachIndex (handle targetDb) collectionName refs) ~;;
                 noteS Success (CompletedMigration collectionName)) s)
    as (w3 & refs & -> & HA & QA & FA).
  match goal with
  | |- context [bindS _ _ ?s3] =>
      destruct (createCollectionIfMissing_run targetDb collectionName s3)
        as (s4 & RE & UE & CE & NE)
  end.
  cbn [under created notes] in RE, UE, CE, NE. rewrite QA in RE, CE, NE.
  destruct (ensure_failure targetDb (requests (under s)) (created s)
              collectionName) as [e|].
  - rewrite (bindS_thrown _ _ _ _ _ RE). unfold noteS.
    eexists. split; [reflexivity|]. cbn [under created notes].
    rewrite UE, CE. split; [reflexivity|]. split; [exact FA|].
    split; [exact QA|]. rewrite map_app, NE, app_nil_r, map_app.
    cbn [List.map snd]. now rewrite <- app_assoc.
  - rewrite (bindS_returned _ _ _ _ _ RE).
    assert (HA4 : Forall2 (fun ref o => heap (under s4) !! ref = Some o) refs
                    (inventory (handle sourceDb) collectionName))
      by now rewrite UE.
    destruct (createEachIndex_returns (handle targetDb) collectionName refs
                (under s4) (Forall2_is_Some _ _ _ HA4)) as [w5 R5].
    rewrite (bindS_returned _ _ _ _ _ (lift_run _ s4 _ _ R5)). unfold noteS.
    eexists. split; [reflexivity|]. cbn [under created notes].
    rewrite CE. split; [reflexivity|]. split; [|split].
    + intros ref o Ho.
      apply (createEachIndex_requests_frame (handle targetDb) collectionName
               refs (under s4) w5 R5 ref o).
      rewrite UE. now apply FA.
    + destruct (createEachIndex_attempted (handle targetDb) collectionName refs
                  _ (under s4) HA4) as (w5' & R5' & Q5).
      rewrite R5 in R5'. injection R5' as <-. now rewrite Q5, UE, QA.
    + rewrite map_app, NE, map_app. cbn [List.map snd].
      now rewrite <- !app_assoc.
Qed.

(** X13. A migration of one collection does not throw.  When the collection
    cannot be looked up or created on the target, it logs the error and sends
    the driver no create at all for that collection. *)
Theorem migrateCollectionIndexes_contains_failures sourceDb targetDb
    collectionName s e :
  ensure_failure targetDb (requests (under s)) (created s) collectionName
  = Some e ->
  exists s',
    migrateCollectionIndexes sourceDb targetDb collectionName s
    = (s', Returned tt) /\
    requests (under s') = requests (under s) /\
    List.map snd (notes s')
    = List.map snd (notes s)
      ++ [(Info, MigratingIndexes collectionName);
          (Error, MigrationError collectionName (message e))].
Proof.
  intros H.
  destruct (migrateCollectionIndexes_run sourceDb targetDb collectionName s)
    as (s' & R & _ & _ & M).
  rewrite H in M. exists s'. tauto.
Qed.

Lemma migrateCollectionIndexes_contains_failures_witness :
  exists s',
    migrateCollectionIndexes sample_source_server unreachable_server "users"
      sample_session = (s', Returned tt) /\
    requests (under s') = [] /\
    List.map snd (notes s')
    = [(Info, MigratingIndexes "users");
       (Error, MigrationError "users" "not authorized")].
Proof.
  apply (migrateCollectionIndexes_contains_failures sample_source_server
           unreachable_server "users" sample_session not_authorized).
  reflexivity.
Defined.

(** X14. When the target collection is there or can be created, and
    [db.collection] does not throw, a migration of one collection creates the
    collection if the target does not have it, then sends the driver one
    create for each source descriptor not named [_id_], in order, with the
    options of C8; the objects already in the heap are left as they were. *)
Theorem migrateCollectionIndexes_requests sourceDb targetDb collectionName s :
  ensure_failure targetDb (requests (under s)) (created s) collectionName = None ->
  db_collection (handle targetDb) collectionName = None ->
  exists s',
    migrateCollectionIndexes sourceDb targetDb collectionName s
    = (s', Returned tt) /\
    created s'
    = created s ++ ensure_calls targetDb (requests (under s)) (created s)
                     collectionName /\
    requests (under s')
    = requests (under s)
      ++ List.map (request_for collectionName)
           (without_id (inventory (handle sourceDb) collectionName)) /\
    (forall ref o, heap (under s) !! ref = Some o ->
                   heap (under s') !! ref = Some o).
Proof.
  intros H Hc.
  destruct (migrateCollectionIndexes_run sourceDb targetDb collectionName s)
    as (s' & R & C & F & M).
  rewrite H in M. destruct M as [Q _]. unfold attempted in Q. rewrite Hc in Q.
  exists s'. auto.
Qed.

Lemma migrateCollectionIndexes_requests_witness :
  exists s',
    migrateCollectionIndexes sample_source_server sample_target_server "users"
      sample_session = (s', Returned tt) /\
    created s' = [] /\
    requests (under s') = [request_for "users" index_email].
Proof.
  destruct (migrateCollectionIndexes_requests sample_source_server
              sample_target_server "users" sample_session eq_refl eq_refl)
    as (s' & R & C & Q & _).
  exists s'. split; [exact R|]. split; [exact C|exact Q].
Defined.

(** X15. A collection whose indexes cannot be read on the source, and which
    the target does not have, is still created on the target, with no index
    and no error: the failed read is taken for an empty collection. *)
Theorem unread_collection_is_created_empty sourceDb targetDb collectionName s e :
  read_failure (handle sourceDb) collectionName = Some e ->
  server_hasCollection targetDb (requests (under s)) (created s) collectionName
  = inr false ->
  server_createCollection targetDb (requests (under s)) (created s) collectionName
  = None ->
  exists s',
    migrateCollectionIndexes sourceDb targetDb collectionName s
    = (s', Returned tt) /\
    created s' = created s ++ [collectionName] /\
    requests (under s') = requests (under s) /\
    List.map snd (notes s')
    = List.map snd (notes s)
      ++ [(Info, MigratingIndexes collectionName);
          (Info, CreatedCollection collectionName);
          (Success, CompletedMigration collectionName)].
Proof.
  intros He Hhas Hcreate.
  destruct (migrateCollectionIndexes_run sourceDb targetDb collectionName s)
    as (s' & R & C & F & M).
  unfold ensure_failure, ensure_calls in *. rewrite Hhas in *.
  rewrite Hcreate in M. destruct M as [Q N].
  exists s'. split; [exact R|]. split; [exact C|]. split; [|exact N].
  assert (Hi : inventory (handle sourceDb) collectionName = []).
  { unfold read_failure in He. unfold inventory.
    destruct (db_collection (handle sourceDb) collectionName); [reflexivity|].
    destruct (db_indexes (handle sourceDb) collectionName);
      [reflexivity|discriminate He]. }
  rewrite Q, Hi. unfold attempted.
  destruct (db_collection (handle targetDb) collectionName); cbn;
    now rewrite app_nil_r.
Qed.

Lemma unread_collection_is_created_empty_witness :
  exists s',
    migrateCollectionIndexes unreachable_server sample_target_server "orders"
      sample_session = (s', Returned tt) /\
    created s' = ["orders"] /\
    requests (under s') = [] /\
    List.map snd (notes s')
    = [(Info, MigratingIndexes "orders"); (Info, CreatedCollection "orders");
       (Success, CompletedMigration "orders")].
Proof.
  apply (unread_collection_is_created_empty unreachable_server
           sample_target_server "orders" sample_session not_authorized);
    reflexivity.
Defined.

Lemma migrateEachCollection_returns sourceDb targetDb collections : forall s,
  exists s',
    migrateEachCollection sourceDb targetDb collections s = (s', Returned tt) /\
    (forall ref o, heap (under s) !! ref = Some o ->
                   heap (under s') !! ref = Some o).
Proof.
  induction collections as [|name rest IH]; intros s.
  - exists s. split; [reflexivity|auto].
  - destruct (migrateCollectionIndexes_run sourceDb targetDb name s)
      as (s1 & R & _ & F & _).
    destruct (IH s1) as (s' & R' & F').
    exists s'. split.
    + cbn [migrateEachCollection]. now rewrite (bindS_returned _ _ _ _ _ R).
    + intros ref o Ho. apply F', F, Ho.
Qed.

Lemma migrateEachCollection_run sourceDb targetDb collections : forall s,
  migrateEachCollection sourceDb targetDb collections s
  = (fold_left (fun st name =>
                  fst (migrateCollectionIndexes sourceDb targetDb name st))
       collections s,
     Returned tt).
Proof.
  induction collections as [|name rest IH]; intros s; [reflexivity|].
  destruct (migrateCollectionIndexes_run sourceDb targetDb name s)
    as (s1 & R & _).
  cbn [migrateEachCollection fold_left].
  rewrite (bindS_returned _ _ _ _ _ R), R. apply IH.
Qed.

(** X16. The [migrate] command throws only when the source collections
    cannot be listed, and then it has logged the failure, read no index and
    written nothing to the target; otherwise it logs their number, runs
    [migrateCollectionIndexes] on every collection, in order, each from the
    state the one before has left and whatever has failed there, logs the
    completion and returns. *)
Theorem migrateCommand_result sourceDb targetDb configCollections s :
  migrateCommand sourceDb targetDb configCollections s
  = match collections_of sourceDb configCollections with
    | inl e => (noted Error (FailedToGetCollections (message e)) s, Thrown e)
    | inr collections =>
        (noted Success MigrationCompleted
           (fold_left (fun st name =>
                         fst (migrateCollectionIndexes sourceDb targetDb name st))
              collections
              (noted Info (FoundCollectionsToProcess (length collections)) s)),
         Returned tt)
    end.
Proof.
  unfold migrateCommand.
  pose proof (getCollections_run sourceDb configCollections s) as G.
  destruct (collections_of sourceDb configCollections) as [e|collections].
  - now rewrite (bindS_thrown _ _ _ _ _ G).
  - rewrite (bindS_returned _ _ _ _ _ G).
    assert (N : noteS Info (FoundCollectionsToProcess (length collections)) s
                = (noted Info (FoundCollectionsToProcess (length collections)) s,
                   Returned tt)) by reflexivity.
    rewrite (bindS_returned _ _ _ _ _ N).
    rewrite (bindS_returned _ _ _ _ _
               (migrateEachCollection_run sourceDb targetDb collections _)).
    reflexivity.
Qed.

Lemma migrateCommand_result_witness :
  migrateCommand unreachable_server sample_target_server None sample_session
  = ({| under := sample_world; created := [];
        notes := [(0%nat, (Error, FailedToGetCollections "not authorized"))] |},
     Thrown not_authorized) /\
  snd (migrateCommand sample_source_server sample_target_server None
         sample_session) = Returned tt /\
  requests (under (fst (migrateCommand sample_source_server sample_target_server
                          None sample_session)))
  = [request_for "users" index_email] /\
  created (fst (migrateCommand sample_source_server sample_target_server None
                  sample_session)) = ["orders"] /\
  List.map snd
    (notes (fst (migrateCommand sample_source_server sample_target_server None
                   sample_session)))
  = [(Info, FoundCollectionsToProcess 2);
     (Info, MigratingIndexes "users"); (Success, CompletedMigration "users");
     (Info, MigratingIndexes "orders"); (Info, CreatedCollection "orders");
     (Success, CompletedMigration "orders");
     (Success, MigrationCompleted)].
Proof.
  split; [|rewrite (migrateCommand_result sample_source_server
                      sample_target_server None sample_session);
           repeat split; vm_compute; reflexivity].
  exact (migrateCommand_result unreachable_server sample_target_server None
           sample_session).
Defined.

Lemma createIndex_without_object db collectionName indexSpec w :
  heap w !! indexSpec = None ->
  exists w',
    createIndex db collectionName indexSpec w = (w', Thrown type_error) /\
    requests w' = requests w.
Proof.
  intros H.
  unfold createIndex, try_catch, collection, index_label, bind, read, throw, ret,
    logger.
  destruct (db_collection db collectionName) as [e|]; rewrite ?H.
  - destruct (is_duplicate_index e); rewrite H; eauto.
  - destruct (is_duplicate_index type_error); rewrite H; eauto.
Qed.

Lemma createEachCustomIndex_app targetDb entries1 entries2 s :
  createEachCustomIndex targetDb (entries1 ++ entries2) s
  = match createEachCustomIndex targetDb entries1 s with
    | (s1, Returned _) => createEachCustomIndex targetDb entries2 s1
    | (s1, Thrown e) => (s1, Thrown e)
    end.
Proof.
  revert s. induction entries1 as [|[name index] rest IH]; intros s.
  - reflexivity.
  - cbn [app createEachCustomIndex]. unfold bindS.
    destruct (createCollectionIfMissing targetDb name s) as [s1 [[]|e]];
      [|reflexivity].
    destruct (lift (createIndex (handle targetDb) name index) s1) as [s2 [[]|e]];
      [|reflexivity].
    apply IH.
Qed.

(** X17. [createCustomIndexes] does not throw; with no [customIndexes] in the
    configuration, or an empty list, it logs that there is none and does
    nothing else. *)
Theorem createCustomIndexes_returns targetDb customIndexes s :
  exists s',
    createCustomIndexes targetDb customIndexes s = (s', Returned tt) /\
    (customIndexes = None \/ customIndexes = Some [] ->
     s' = {| under := under s; created := created s;
             notes := notes s ++ [(length (console (under s)),
                                   (Info, NoCustomIndexes))] |}).
Proof.
  unfold createCustomIndexes, try_catchS.
  destruct customIndexes as [[|entry entries]|].
  - eexists. split; [reflexivity|]. reflexivity.
  - match goal with
    | |- context [match ?body s with _ => _ end] =>
        destruct (body s) as [s1 [[]|e]]
    end.
    + eexists. split; [reflexivity|]. intros [H|H]; discriminate H.
    + eexists. split; [reflexivity|]. intros [H|H]; discriminate H.
  - eexists. split; [reflexivity|]. reflexivity.
Qed.

Lemma createCustomIndexes_returns_witness :
  createCustomIndexes unreachable_server None sample_session
  = ({| under := sample_world; created := [];
        notes := [(0%nat, (Info, NoCustomIndexes))] |}, Returned tt).
Proof.
  destruct (createCustomIndexes_returns unreachable_server None sample_session)
    as (s' & R & E).
  rewrite R, E; [reflexivity|now left].
Defined.

(** X18. A custom index that fails stops the others: when the collection of
    an entry cannot be looked up or created, or when the entry has no [index]
    object, the loop of [createCustomIndexes] throws, and the driver receives
    no create for that entry nor for any entry after it. *)
Theorem failing_custom_index_stops_the_loop targetDb done collectionName index
    rest s s1 :
  createEachCustomIndex targetDb done s = (s1, Returned tt) ->
  (exists e, ensure_failure targetDb (requests (under s1)) (created s1)
               collectionName = Some e) \/
  heap (under s1) !! index = None ->
  exists s' e,
    createEachCustomIndex targetDb (done ++ (collectionName, index) :: rest) s
    = (s', Thrown e) /\
    requests (under s') = requests (under s1).
Proof.
  intros R H. rewrite createEachCustomIndex_app, R.
  cbn [createEachCustomIndex].
  destruct (createCollectionIfMissing_run targetDb collectionName s1)
    as (s2 & RE & UE & _).
  destruct (ensure_failure targetDb (requests (under s1)) (created s1)
              collectionName) as [e|] eqn:He.
  - rewrite (bindS_thrown _ _ _ _ _ RE). exists s2, e. now rewrite UE.
  - destruct H as [[e H]|H]; [discriminate H|].
    rewrite (bindS_returned _ _ _ _ _ RE).
    destruct (createIndex_without_object (handle targetDb) collectionName index
                (under s2)) as (w3 & R3 & Q3); [now rewrite UE|].
    rewrite (bindS_thrown _ _ _ _ _ (lift_run _ s2 _ _ R3)).
    eexists _, _. split; [reflexivity|]. cbn [under]. now rewrite Q3, UE.
Qed.

Lemma failing_custom_index_stops_the_loop_witness :
  exists s' e,
    createEachCustomIndex sample_target_server
      [("users", 9%positive); ("users", 5%positive)] sample_session
    = (s', Thrown e) /\
    requests (under s') = [].
Proof.
  apply (failing_custom_index_stops_the_loop sample_target_server [] "users"
           9%positive [("users", 5%positive)] sample_session sample_session).
  - reflexivity.
  - right. reflexivity.
Defined.

(** The start of [compareIndexes], up to the count of the loop. *)
Lemma compareIndexes_run sourceDb targetDb configCollections s
    sourceCollections targetCollections :
  collections_of sourceDb configCollections = inr sourceCollections ->
  collections_of targetDb (Some []) = inr targetCollections ->
  exists middle plan,
    (forall name,
       plan !! name
       = if String.eqb name "__proto__" then None
         else plan_with_target_as_read sourceCollections
                (inventory (handle sourceDb)) targetCollections
                (inventory (handle targetDb)) name) /\
    heap (under middle) = heap (under s) /\
    requests (under middle) = requests (under s) /\
    created middle = created s /\
    forall afterwards,
      compareIndexes sourceDb targetDb configCollections afterwards s
      = let total :=
          list_sum
            (List.map (fun name =>
               entry_count (turn_entry (handle sourceDb) (handle targetDb)
                              targetCollections name)) sourceCollections) in
        if (total =? 0)%nat then
          ({| under := under middle; created := created middle;
              notes := notes middle
                       ++ [(length (console (under middle)),
                            (Info, AllIndexesExist))] |},
           Returned (plan, 0%nat))
        else
          match afterwards plan total middle with
          | (s1, Returned _) => (s1, Returned (plan, total))
          | (s1, Thrown e) =>
              ({| under := under s1; created := created s1;
                  notes := notes s1
                           ++ [(length (console (under s1)),
                                (Error, ErrorComparingIndexes (message e)))] |},
               Returned (∅, 0%nat))
          end.
Proof.
  intros Hs Ht.
  pose proof (getCollections_run sourceDb configCollections s) as G1.
  rewrite Hs in G1.
  set (s1 := {| under := under s; created := created s;
                notes := notes s
                         ++ [(length (console (under s)),
                              (Info, FoundSourceCollections
                                       (length sourceCollections)))] |}).
  pose proof (getCollections_run targetDb (Some []) s1) as G2.
  rewrite Ht in G2.
  destruct (compareCollections_full (handle sourceDb) (handle targetDb)
              targetCollections sourceCollections ∅ 0%nat (under s1))
    as (plan & R & P).
  cbn [Nat.add] in R.
  set (total := list_sum
                  (List.map (fun name =>
                     entry_count (turn_entry (handle sourceDb) (handle targetDb)
                                    targetCollections name)) sourceCollections))
    in *.
  set (w2 := with_console (under s1)
               (List.flat_map (compare_lines (handle sourceDb) (handle targetDb)
                                 targetCollections) sourceCollections)) in *.
  set (s2 := {| under := w2; created := created s1; notes := notes s1 |}).
  set (s3 := {| under := w2; created := created s1;
                notes := (notes s1 ++ [(length (console w2),
                                        (Info, MissingIndexesHeader))])
                         ++ [(length (console w2),
                              (Info, MissingIndexesReport total))] |}).
  exists s3, plan. split.
  { intros name. rewrite P, !lookup_empty.
    destruct (String.eqb name "__proto__"); [reflexivity|].
    now destruct (plan_with_target_as_read _ _ _ _ _). }
  split; [reflexivity|]. split; [reflexivity|]. split; [reflexivity|].
  intros afterwards. unfold compareIndexes, try_catchS.
  rewrite (bindS_returned _ _ _ _ _ G1).
  assert (N1 : noteS Info (FoundSourceCollections (length sourceCollections)) s
               = (s1, Returned tt)) by reflexivity.
  rewrite (bindS_returned _ _ _ _ _ N1).
  rewrite (bindS_returned _ _ _ _ _ G2).
  rewrite (bindS_returned _ _ _ _ _ (lift_run _ s1 _ _ R)).
  assert (N2 : noteS Info MissingIndexesHeader
                 {| under := w2; created := created s1; notes := notes s1 |}
               = ({| under := w2; created := created s1;
                     notes := notes s1 ++ [(length (console w2),
                                            (Info, MissingIndexesHeader))] |},
                  Returned tt)) by reflexivity.
  rewrite (bindS_returned _ _ _ _ _ N2).
  assert (N3 : noteS Info (MissingIndexesReport total)
                 {| under := w2; created := created s1;
                    notes := notes s1 ++ [(length (console w2),
                                           (Info, MissingIndexesHeader))] |}
               = (s3, Returned tt)) by reflexivity.
  cbn [snd fst]. rewrite (bindS_returned _ _ _ _ _ N3). cbv zeta.
  destruct (total =? 0)%nat.
  - reflexivity.
  - unfold bindS, retS, noteS.
    destruct (afterwards plan total s3) as [s4 [[]|e]]; reflexivity.
Qed.

(** X19. When the collections of the source or of the target cannot be
    listed, [compareIndexes] does not throw: it returns the empty plan with
    count zero, has read no index, and the rest of the function is not run. *)
Theorem compareIndexes_listing_failure sourceDb targetDb configCollections
    afterwards s e :
  collections_of sourceDb configCollections = inl e \/
  (exists sourceCollections,
     collections_of sourceDb configCollections = inr sourceCollections) /\
  collections_of targetDb (Some []) = inl e ->
  exists s',
    compareIndexes sourceDb targetDb configCollections afterwards s
    = (s', Returned (∅, 0%nat)) /\
    under s' = under s /\
    created s' = created s.
Proof.
  intros H. unfold compareIndexes, try_catchS.
  pose proof (getCollections_run sourceDb configCollections s) as G1.
  destruct H as [H|[[sourceCollections H] Ht]]; rewrite H in G1.
  - rewrite (bindS_thrown _ _ _ _ _ G1). unfold bindS, noteS, retS.
    eexists. split; [reflexivity|]. split; reflexivity.
  - rewrite (bindS_returned _ _ _ _ _ G1).
    set (s1 := {| under := under s; created := created s;
                  notes := notes s
                           ++ [(length (console (under s)),
                                (Info, FoundSourceCollections
                                         (length sourceCollections)))] |}).
    assert (N1 : noteS Info (FoundSourceCollections (length sourceCollections)) s
                 = (s1, Returned tt)) by reflexivity.
    rewrite (bindS_returned _ _ _ _ _ N1).
    pose proof (getCollections_run targetDb (Some []) s1) as G2.
    rewrite Ht in G2. rewrite (bindS_thrown _ _ _ _ _ G2).
    unfold bindS, noteS, retS. eexists. split; [reflexivity|].
    split; reflexivity.
Qed.

Lemma compareIndexes_listing_failure_witness :
  exists s',
    compareIndexes sample_source_server unreachable_server None
      failing_afterwards sample_session = (s', Returned (∅, 0%nat)) /\
    under s' = sample_world /\
    created s' = [].
Proof.
  apply (compareIndexes_listing_failure sample_source_server unreachable_server
           None failing_afterwards sample_session not_authorized).
  right. split; [eexists; reflexivity | reflexivity].
Defined.

(** X20. When no descriptor is missing, [compareIndexes] returns the plan
    with count zero and the rest of the function (the listing, the question
    and the write of the configuration) is not run; the plan, which has no
    entry under [__proto__], may still have entries, for the collections the
    target lacks. *)
Theorem compareIndexes_nothing_missing sourceDb targetDb configCollections s
    sourceCollections targetCollections :
  collections_of sourceDb configCollections = inr sourceCollections ->
  collections_of targetDb (Some []) = inr targetCollections ->
  list_sum
    (List.map (fun name =>
       entry_count (turn_entry (handle sourceDb) (handle targetDb)
                      targetCollections name)) sourceCollections) = 0%nat ->
  exists s' plan,
    (forall name,
       plan !! name
       = if String.eqb name "__proto__" then None
         else plan_with_target_as_read sourceCollections
                (inventory (handle sourceDb)) targetCollections
                (inventory (handle targetDb)) name) /\
    forall afterwards,
      compareIndexes sourceDb targetDb configCollections afterwards s
      = (s', Returned (plan, 0%nat)).
Proof.
  intros Hs Ht Hz.
  destruct (compareIndexes_run sourceDb targetDb configCollections s
              sourceCollections targetCollections Hs Ht)
    as (middle & plan & P & _ & _ & _ & R).
  eexists _, plan. split; [exact P|]. intros afterwards.
  rewrite R. cbv zeta. rewrite Hz. reflexivity.
Qed.

Lemma compareIndexes_nothing_missing_witness :
  exists s' plan,
    plan !! "orders" = Some {| collectionMissing := true; indexes := [] |} /\
    compareIndexes sample_source_server sample_target_server (Some ["orders"])
      failing_afterwards sample_session = (s', Returned (plan, 0%nat)).
Proof.
  destruct (compareIndexes_nothing_missing sample_source_server
              sample_target_server (Some ["orders"]) sample_session
              ["orders"] ["users"] eq_refl eq_refl eq_refl)
    as (s' & plan & P & R).
  exists s', plan. split; [rewrite P; reflexivity|apply R].
Defined.

(** X21. When some descriptor is missing, the result of [compareIndexes]
    hangs on the rest of the function, which is run on the plan and its
    count once the planner has logged its lines: if the listing, the question
    or the write of the configuration throws, [compareIndexes] logs the error
    and returns the empty plan with count zero, though descriptors are
    missing; if it returns, [compareIndexes] returns the plan and its count.
    The plan has no entry under [__proto__]. *)
Theorem compareIndexes_after_the_plan sourceDb targetDb configCollections s
    sourceCollections targetCollections afterwards :
  collections_of sourceDb configCollections = inr sourceCollections ->
  collections_of targetDb (Some []) = inr targetCollections ->
  list_sum
    (List.map (fun name =>
       entry_count (turn_entry (handle sourceDb) (handle targetDb)
                      targetCollections name)) sourceCollections) <> 0%nat ->
  exists middle plan,
    (forall name,
       plan !! name
       = if String.eqb name "__proto__" then None
         else plan_with_target_as_read sourceCollections
                (inventory (handle sourceDb)) targetCollections
                (inventory (handle targetDb)) name) /\
    heap (under middle) = heap (under s) /\
    requests (under middle) = requests (under s) /\
    created middle = created s /\
    compareIndexes sourceDb targetDb configCollections afterwards s
    = match afterwards plan
              (list_sum
                 (List.map (fun name =>
                    entry_count (turn_entry (handle sourceDb) (handle targetDb)
                                   targetCollections name)) sourceCollections))
              middle with
      | (s1, Returned _) =>
          (s1, Returned
                 (plan,
                  list_sum
                    (List.map (fun name =>
                       entry_count (turn_entry (handle sourceDb) (handle targetDb)
                                      targetCollections name)) sourceCollections)))
      | (s1, Thrown e) =>
          (noted Error (ErrorComparingIndexes (message e)) s1,
           Returned (∅, 0%nat))
      end.
Proof.
  intros Hs Ht Hnz.
  destruct (compareIndexes_run sourceDb targetDb configCollections s
              sourceCollections targetCollections Hs Ht)
    as (middle & plan & P & H1 & H2 & H3 & R).
  apply Nat.eqb_neq in Hnz.
  exists middle, plan. split; [exact P|]. split; [exact H1|].
  split; [exact H2|]. split; [exact H3|].
  rewrite R. cbv zeta. rewrite Hnz. reflexivity.
Qed.

Lemma compareIndexes_after_the_plan_witness :
  exists s',
    compareIndexes sample_source_server sample_target_server None
      failing_afterwards sample_session = (s', Returned (∅, 0%nat)) /\
    exists position,
      In (position, (Error, ErrorComparingIndexes "permission denied"))
         (notes s').
Proof.
  destruct (compareIndexes_after_the_plan sample_source_server
              sample_target_server None sample_session
              ["users"; "orders"] ["users"] failing_afterwards
              eq_refl eq_refl ltac:(discriminate))
    as (middle & plan & _ & _ & _ & _ & R).
  rewrite R. unfold failing_afterwards, throwS.
  eexists. split; [reflexivity|].
  eexists. unfold noted. cbn [notes message]. apply in_or_app. right. left.
  reflexivity.
Defined.

End Commands.

(** ** The interactive index *)

Section Interactive.

Ltac case_field f :=
  match goal with
  | |- context [String.eqb ?k f] =>
      destruct (String.eqb_spec k f) as [<-|?]; try congruence
  end.

Lemma buildIndexSpec_without_ttl fields indexName unique sparse background ttl :
  match ttl with Some seconds => (seconds <= 0)%Z | None => True end ->
  buildIndexSpec fields indexName unique sparse background ttl
  = buildIndexSpec fields indexName unique sparse background None.
Proof.
  unfold buildIndexSpec. destruct ttl as [seconds|]; [|reflexivity].
  intros H. destruct (Z.ltb_spec 0 seconds); [lia|reflexivity].
Qed.

(** X22. In the interactive mode a TTL answer that is zero, negative or not
    a number is the same as no TTL: the descriptor built has no
    [expireAfterSeconds], and it is equivalent to the descriptor built from
    the same fields and the same unique and sparse answers with no TTL,
    whatever the names and the background answers. *)
Theorem interactive_ttl_zero_is_none fields indexName indexName' unique sparse
    background background' ttl :
  match ttl with Some seconds => (seconds <= 0)%Z | None => True end ->
  lookup_prop "expireAfterSeconds"
    (buildIndexSpec fields indexName unique sparse background ttl) = None /\
  areIndexesEquivalent
    (buildIndexSpec fields indexName unique sparse background ttl)
    (buildIndexSpec fields indexName' unique sparse background' None) = true.
Proof.
  intros H. rewrite (buildIndexSpec_without_ttl _ _ _ _ _ _ H).
  unfold buildIndexSpec. split.
  - destruct (truthy (VStr indexName)), unique, sparse; reflexivity.
  - apply areIndexesEquivalent_agree.
    + intros f Hn Hb. unfold get.
      destruct (truthy (VStr indexName)), (truthy (VStr indexName')), unique, sparse;
        cbn [app lookup_prop]; repeat case_field f; reflexivity.
    + destruct (truthy (VStr indexName)), unique, sparse; reflexivity.
    + destruct (truthy (VStr indexName)), unique, sparse; reflexivity.
    + destruct (truthy (VStr indexName)), unique, sparse; reflexivity.
Qed.

Lemma interactive_ttl_zero_is_none_witness :
  lookup_prop "expireAfterSeconds"
    (buildIndexSpec key_a "a_ttl" true false true (Some 0)) = None /\
  areIndexesEquivalent
    (buildIndexSpec key_a "a_ttl" true false true (Some 0))
    (buildIndexSpec key_a "" true false false None) = true.
Proof.
  apply (interactive_ttl_zero_is_none key_a "a_ttl" "" true false true false
           (Some 0)).
  simpl. lia.
Defined.

End Interactive.
